(** * Chess board analytics: geometry, square mapping and FEN serialisation

    A shallow embedding of the pure core of the Python ML service
    ([app/board_geometry.py], [app/fen_generator.py], the detector of
    [app/detector.py] from the models' predictions on, and the data-URI
    step of [utils/image_utils.py]), followed by the properties the
    specification states about it and by further properties of the code.

    Conventions of the embedding:
    - a Python exception is a value [Raise e] of the result type [res];
      every function that indexes a sequence or subscripts a dict lives in
      that monad, and totality is proved rather than assumed;
    - a [dict] is a [gmap]; a [str] is a [string] of 8-bit characters, each
      the code point of that number;
    - corner points carry whole-number coordinates ([Z]), as the contour
      vertices and the crop corners handed to [order_corners] do; the sums
      and differences [order_corners] compares are rounded to float32
      ([f32]), and are exact up to 2^24 in magnitude;
    - detection boxes, warped coordinates and confidences are rationals
      ([Q]), the exact-arithmetic reading of the finite floats of the
      source; [pyfloat] adds the infinities and NaN where a property is
      about them. *)

From Stdlib Require Import ZArith QArith Qround Ascii String DecimalString.
From stdpp Require Import base option list strings gmap fin_maps.

Local Open Scope string_scope.
Local Open Scope list_scope.

(** ** Python primitives *)

Module Py.

Inductive exn : Type :=
| KeyError (key : string)
| IndexError
| ValueError
| OverflowError.

Inductive res (A : Type) : Type :=
| Ok (a : A)
| Raise (e : exn).
Global Arguments Ok {A} a.
Global Arguments Raise {A} e.

Definition bind {A B} (m : res A) (k : A → res B) : res B :=
  match m with
  | Ok a => k a
  | Raise e => Raise e
  end.

Global Instance res_ret : MRet res := @Ok.
Global Instance res_bind : MBind res := λ A B k m, bind m k.

(** [for x in xs: st = body st x], where the body may raise. *)
Fixpoint for_each {A St} (xs : list A) (st : St) (body : St → A → res St)
  : res St :=
  match xs with
  | [] => Ok st
  | x :: xs' => st' ← body st x; for_each xs' st' body
  end.

(** [str(n)] for an integer. *)
Definition str (n : Z) : string := NilZero.string_of_int (Z.to_int n).

(** [s[i]] for a string: a one-character string; a negative index counts
    from the end; [IndexError] outside. *)
Definition str_getitem (s : string) (i : Z) : res string :=
  let j := if (i <? 0)%Z then (i + Z.of_nat (String.length s))%Z else i in
  if (j <? 0)%Z then Raise IndexError
  else match String.get (Z.to_nat j) s with
       | Some c => Ok (String c EmptyString)
       | None => Raise IndexError
       end.

(** [l[i]] for a list. *)
Definition list_getitem {A} (l : list A) (i : nat) : res A :=
  match l !! i with
  | Some x => Ok x
  | None => Raise IndexError
  end.

(** [d[k]] for a dict with string keys. *)
Definition dict_getitem {V} (d : gmap string V) (k : string) : res V :=
  match d !! k with
  | Some v => Ok v
  | None => Raise (KeyError k)
  end.

(** [k in d]. *)
Definition dict_contains {V} (d : gmap string V) (k : string) : bool :=
  match d !! k with
  | Some _ => true
  | None => false
  end.

(** [d.get(k, default)]. *)
Definition dict_get {V} (d : gmap string V) (k : string) (dflt : V) : V :=
  default dflt (d !! k).

(** [c in s] for a character [c]. *)
Fixpoint contains (c : ascii) (s : string) : bool :=
  match s with
  | EmptyString => false
  | String a s' => if Ascii.eqb a c then true else contains c s'
  end.

(** [s.count(c)] for a character [c]. *)
Fixpoint count (c : ascii) (s : string) : nat :=
  match s with
  | EmptyString => 0
  | String a s' => (if Ascii.eqb a c then 1 else 0) + count c s'
  end.

(** [s.startswith(p)]. *)
Fixpoint startswith (s p : string) {struct p} : bool :=
  match p with
  | EmptyString => true
  | String a p' =>
      match s with
      | String b s' => Ascii.eqb a b && startswith s' p'
      | EmptyString => false
      end
  end.

(** [s.split(sep)] for a one-character separator: one more piece than
    there are separators, empty pieces included. *)
Fixpoint split (sep : ascii) (s : string) : list string :=
  match s with
  | EmptyString => [EmptyString]
  | String a s' =>
      if Ascii.eqb a sep then EmptyString :: split sep s'
      else match split sep s' with
           | piece :: rest => String a piece :: rest
           | [] => [String a EmptyString]
           end
  end.

(** [sep.join(pieces)]. *)
Definition join (sep : string) (pieces : list string) : string :=
  String.concat sep pieces.

(** [range(n)] and [enumerate(l)]. *)
Definition range (n : nat) : list Z := Z.of_nat <$> seq 0 n.
Definition enumerate {A} (l : list A) : list (Z * A) :=
  imap (λ i x, (Z.of_nat i, x)) l.

(** [ch.isdecimal()]: among the 8-bit characters, the digits 0 to 9. *)
Definition isdecimal (c : ascii) : bool :=
  let n := nat_of_ascii c in (48 <=? n)%nat && (n <=? 57)%nat.

(** [ch.isdigit()]: among the 8-bit characters, the digits 0 to 9 and the
    superscripts ², ³ and ¹ (code points 178, 179 and 185). *)
Definition isdigit (c : ascii) : bool :=
  isdecimal c || bool_decide (nat_of_ascii c ∈ [178; 179; 185]%nat).

(** [int(ch)] for a one-character string: the value of a decimal
    character, [ValueError] on any other, the superscripts included. *)
Definition int_of_char (c : ascii) : res Z :=
  if isdecimal c then Ok (Z.of_nat (nat_of_ascii c) - 48)%Z
  else Raise ValueError.

(** [int(x)] for a number: truncation towards zero. *)
Definition int_of_Q (x : Q) : Z := Z.quot (Qnum x) (Zpos (Qden x)).

(** A [float] with its special values: a finite number, an infinity of
    either sign, or a NaN. *)
Inductive pyfloat : Type :=
| Finite (q : Q)
| Infinity (negative : bool)
| NaN.

(** [x / k] for a float [x] and a positive integer [k]. *)
Definition truediv (x : pyfloat) (k : positive) : pyfloat :=
  match x with
  | Finite q => Finite (q / inject_Z (Zpos k))
  | Infinity negative => Infinity negative
  | NaN => NaN
  end.

(** [int(x)] for a float: truncation towards zero; [OverflowError] on an
    infinity, [ValueError] on a NaN. *)
Definition int_of_float (x : pyfloat) : res Z :=
  match x with
  | Finite q => Ok (int_of_Q q)
  | Infinity _ => Raise OverflowError
  | NaN => Raise ValueError
  end.

(** [round(x, ndigits)]: nearest multiple of [10^-ndigits], halves to the
    even neighbour. *)
Definition round_half_even (x : Q) : Z :=
  let a := Qnum x in
  let b := Zpos (Qden x) in
  let f := (a / b)%Z in
  match (2 * (a mod b) ?= b)%Z with
  | Lt => f
  | Gt => (f + 1)%Z
  | Eq => if Z.even f then f else (f + 1)%Z
  end.

Definition round (x : Q) (ndigits : nat) : Q :=
  let scale := Z.to_pos (10 ^ Z.of_nat ndigits) in
  Qmake (round_half_even (x * inject_Z (Zpos scale))) scale.

(** [s.split(sep, 1)] for a one-character separator: the string cut at the
    first separator, or the string alone when it has none. *)
Fixpoint split_once (sep : ascii) (s : string) : list string :=
  match s with
  | EmptyString => [EmptyString]
  | String a s' =>
      if Ascii.eqb a sep then [EmptyString; s']
      else match split_once sep s' with
           | piece :: rest => String a piece :: rest
           | [] => [String a EmptyString]
           end
  end.

End Py.
Import Py.

(** ** [app/fen_generator.py] *)

Module FenGenerator.

Definition PIECE_TO_FEN : gmap string string :=
  list_to_map
    [ ("white_king", "K"); ("white_queen", "Q"); ("white_rook", "R");
      ("white_bishop", "B"); ("white_knight", "N"); ("white_pawn", "P");
      ("black_king", "k"); ("black_queen", "q"); ("black_rook", "r");
      ("black_bishop", "b"); ("black_knight", "n"); ("black_pawn", "p") ].

(** Body of the inner loop of [generate_fen] ([for file_idx in range(8)]);
    the loop state is [(rank_str, empty_count)]. *)
Definition file_step (square_map : gmap string string) (rank_num : Z)
    (st : string * Z) (file_idx : Z) : res (string * Z) :=
  let '(rank_str, empty_count) := st in
  file_char ← str_getitem "abcdefgh" file_idx;
  let square := file_char +:+ str rank_num in
  if dict_contains square_map square then
    let '(rank_str, empty_count) :=
      if (0 <? empty_count)%Z then (rank_str +:+ str empty_count, 0%Z)
      else (rank_str, empty_count) in
    piece_class ← dict_getitem square_map square;
    Ok (rank_str +:+ dict_get PIECE_TO_FEN piece_class "?", empty_count)
  else Ok (rank_str, (empty_count + 1)%Z).

(** Body of the outer loop ([for rank_num in range(8, 0, -1)]); the loop
    state is the list [ranks]. *)
Definition rank_step (square_map : gmap string string)
    (ranks : list string) (rank_num : Z) : res (list string) :=
  '(rank_str, empty_count) ←
    for_each (range 8) (EmptyString, 0%Z) (file_step square_map rank_num);
  let rank_str :=
    if (0 <? empty_count)%Z then rank_str +:+ str empty_count
    else rank_str in
  Ok (ranks ++ [rank_str]).

Definition generate_fen (square_map : gmap string string) : res string :=
  ranks ← for_each [8; 7; 6; 5; 4; 3; 2; 1]%Z [] (rank_step square_map);
  let board_part := join "/" ranks in
  Ok (board_part +:+ " w KQkq - 0 1").

Definition _VALID_BOARD_CHARS : list ascii :=
  list_ascii_of_string "rnbqkpRNBQKP12345678".

(** The dict [{"valid": ..., "errors": ...}] returned by [validate_fen]. *)
Record validation : Type := { valid : bool; errors : list string }.

(** Body of the invalid-character loop. *)
Definition char_step (errors : list string) (ch : ascii) : list string :=
  if negb (Ascii.eqb ch "/") && negb (bool_decide (ch ∈ _VALID_BOARD_CHARS))
  then errors ++ ["Invalid character '" +:+ String ch "' in board portion."]
  else errors.

(** Body of the loop that sums one rank. *)
Definition total_step (total : Z) (ch : ascii) : res Z :=
  if isdigit ch then d ← int_of_char ch; Ok (total + d)%Z
  else Ok (total + 1)%Z.

(** Body of the loop over [enumerate(ranks)]. *)
Definition rank_sum_step (errors : list string) (ir : Z * string)
  : res (list string) :=
  let '(i, rank) := ir in
  total ← for_each (list_ascii_of_string rank) 0%Z total_step;
  if negb (total =? 8)%Z
  then Ok (errors ++ ["Rank " +:+ str (8 - i) +:+ " ('" +:+ rank +:+
                      "') sums to " +:+ str total +:+ " squares; expected 8."])
  else Ok errors.

Definition validate_fen (fen : string) : res validation :=
  let errors : list string := [] in
  board_part ←
    (if contains " " fen then list_getitem (split " " fen) 0 else Ok fen);
  let ranks := split "/" board_part in
  let errors :=
    if negb (List.length ranks =? 8)%nat
    then errors ++ ["Expected 8 ranks separated by '/', found " +:+
                    str (Z.of_nat (List.length ranks)) +:+ "."]
    else errors in
  let errors := foldl char_step errors (list_ascii_of_string board_part) in
  errors ← for_each (enumerate ranks) errors rank_sum_step;
  let white_kings := Z.of_nat (count "K" board_part) in
  let black_kings := Z.of_nat (count "k" board_part) in
  let errors :=
    if negb (white_kings =? 1)%Z
    then errors ++ ["Expected exactly 1 white king ('K'), found " +:+
                    str white_kings +:+ "."]
    else errors in
  let errors :=
    if negb (black_kings =? 1)%Z
    then errors ++ ["Expected exactly 1 black king ('k'), found " +:+
                    str black_kings +:+ "."]
    else errors in
  let white_pawns := Z.of_nat (count "P" board_part) in
  let black_pawns := Z.of_nat (count "p" board_part) in
  let errors :=
    if (8 <? white_pawns)%Z
    then errors ++ ["White has " +:+ str white_pawns +:+
                    " pawns; maximum is 8."]
    else errors in
  let errors :=
    if (8 <? black_pawns)%Z
    then errors ++ ["Black has " +:+ str black_pawns +:+
                    " pawns; maximum is 8."]
    else errors in
  Ok {| valid := (List.length errors =? 0)%nat; errors := errors |}.

End FenGenerator.
Import FenGenerator.

(** ** [app/board_geometry.py] *)

Module BoardGeometry.

(** *** Corner ordering *)

(** A row of the float32 array [corners]: a point whose two coordinates are
    whole numbers, as the contour vertices and the crop corners are. *)
Definition point : Type := Z * Z.

(** The float32 nearest to a whole number [z]: [z] itself below 2^24 in
    magnitude, else [z] rounded to 24 significant bits, halves to the even
    neighbour.  A magnitude that rounds to 2^128 or more is beyond the
    float32 range: the result is an infinity, which compares above every
    finite value and equal to itself, and for which ±2^128 stands. *)
Definition f32 (z : Z) : Z :=
  let a := Z.abs z in
  if (a <? 2 ^ 24)%Z then z
  else
    let ulp := (2 ^ (Z.log2 a - 23))%Z in
    let r := (round_half_even (a # Z.to_pos ulp) * ulp)%Z in
    (Z.sgn z * (if (2 ^ 128 <=? r)%Z then 2 ^ 128 else r))%Z.

(** [x + y] and [x - y] on float32 entries: the exact result, rounded. *)
Definition f32_add (x y : Z) : Z := f32 (x + y).
Definition f32_sub (x y : Z) : Z := f32 (x - y).

(** [np.argmin] / [np.argmax] on a vector: index of the first occurrence
    of the extreme value; [ValueError] on an empty vector.  The scan keeps
    the best index and value seen so far. *)
Fixpoint argmin_from (i best_i : nat) (best : Z) (l : list Z) : nat :=
  match l with
  | [] => best_i
  | x :: l' =>
      if (x <? best)%Z then argmin_from (S i) i x l'
      else argmin_from (S i) best_i best l'
  end.

Definition argmin (l : list Z) : res nat :=
  match l with
  | [] => Raise ValueError
  | x :: l' => Ok (argmin_from 1 0 x l')
  end.

Fixpoint argmax_from (i best_i : nat) (best : Z) (l : list Z) : nat :=
  match l with
  | [] => best_i
  | x :: l' =>
      if (best <? x)%Z then argmax_from (S i) i x l'
      else argmax_from (S i) best_i best l'
  end.

Definition argmax (l : list Z) : res nat :=
  match l with
  | [] => Raise ValueError
  | x :: l' => Ok (argmax_from 1 0 x l')
  end.

(** [corners[idxs]]: the rows of [corners] at the given indices. *)
Definition take_rows (corners : list point) (idxs : list nat)
  : res (list point) :=
  mapM (list_getitem corners) idxs.

Definition order_corners (corners : list point) : res (list point) :=
  (* corners.reshape(4, 2) *)
  if negb (List.length corners =? 4)%nat then Raise ValueError else
  let sums := (λ p : point, f32_add p.1 p.2) <$> corners in
  tl_idx ← argmin sums;
  br_idx ← argmax sums;
  let remaining :=
    filter (λ i, i ≠ tl_idx ∧ i ≠ br_idx) (seq 0 4) in
  rows ← take_rows corners remaining;
  let diffs := (λ p : point, f32_sub p.1 p.2) <$> rows in
  d0 ← list_getitem diffs 0;
  d1 ← list_getitem diffs 1;
  '(tr_idx, bl_idx) ←
    (if (d1 <? d0)%Z
     then r0 ← list_getitem remaining 0;
          r1 ← list_getitem remaining 1; Ok (r0, r1)
     else r1 ← list_getitem remaining 1;
          r0 ← list_getitem remaining 0; Ok (r1, r0));
  take_rows corners [tl_idx; tr_idx; br_idx; bl_idx].

(** *** Piece → square mapping *)

(** One element of the list returned by [ChessDetector.detect_pieces]. *)
Record Detection : Type :=
  { class_name : string;
    bbox : Q * Q * Q * Q;
    confidence : Q }.

(** A 3 x 3 matrix, row by row. *)
Definition Matrix : Type := (Q * Q * Q) * (Q * Q * Q) * (Q * Q * Q).

(** [x > y] on numbers. *)
Definition Qgtb (x y : Q) : bool := negb (Qle_bool x y).

(** The grid mapping of a warped point (the block under
    [# --- grid mapping ---]), on finite coordinates. *)
Definition grid_square (wx wy : Q) : res string :=
  let col := Z.min (Z.max (int_of_Q (wx / 80)) 0) 7 in
  let row := Z.min (Z.max (int_of_Q (wy / 80)) 0) 7 in
  file_char ← str_getitem "abcdefgh" col;
  let rank_char := str (8 - row) in
  Ok (file_char +:+ rank_char).

(** The same block on a float that need not be finite: [int] raises on an
    infinity and on a NaN, before the clamp is reached. *)
Definition grid_square_float (wx wy : pyfloat) : res string :=
  c ← int_of_float (truediv wx 80);
  let col := Z.min (Z.max c 0) 7 in
  r ← int_of_float (truediv wy 80);
  let row := Z.min (Z.max r 0) 7 in
  file_char ← str_getitem "abcdefgh" col;
  let rank_char := str (8 - row) in
  Ok (file_char +:+ rank_char).

Section SquareMapper.

(** [cv2.perspectiveTransform] applied to a single point: a function of
    the matrix and the point, supplied by OpenCV. *)
Variable perspectiveTransform : Matrix → Q * Q → Q * Q.

(** The square a detection lands on (the loop body up to the conflict
    resolution). *)
Definition detection_square (det : Detection) (board_bbox : Z * Z * Z * Z)
    (warp_matrix : Matrix) : res string :=
  let '(x1, y1, x2, y2) := bbox det in
  let cx := ((x1 + x2) / 2)%Q in
  let cy := ((y1 + y2) / 2)%Q in
  let '(bx1, by1, _, _) := board_bbox in
  let cx_rel := (cx - inject_Z bx1)%Q in
  let cy_rel := (cy - inject_Z by1)%Q in
  let '(wx, wy) := perspectiveTransform warp_matrix (cx_rel, cy_rel) in
  grid_square wx wy.

(** Body of the loop of [map_pieces_to_squares]; the loop state is
    [(square_map, square_conf)]. *)
Definition place_step (board_bbox : Z * Z * Z * Z) (warp_matrix : Matrix)
    (st : gmap string string * gmap string Q) (det : Detection)
  : res (gmap string string * gmap string Q) :=
  let '(square_map, square_conf) := st in
  square ← detection_square det board_bbox warp_matrix;
  let conf := confidence det in
  replace ←
    (if negb (dict_contains square_map square) then Ok true
     else old ← dict_getitem square_conf square; Ok (Qgtb conf old));
  if replace : bool
  then Ok (<[square := class_name det]> square_map,
           <[square := conf]> square_conf)
  else Ok (square_map, square_conf).

Definition map_pieces_to_squares (piece_detections : list Detection)
    (board_bbox : Z * Z * Z * Z) (warp_matrix : Matrix)
  : res (gmap string string) :=
  '(square_map, _) ←
    for_each piece_detections (∅, ∅) (place_step board_bbox warp_matrix);
  Ok square_map.

End SquareMapper.

(** The exact-arithmetic projective map of a point, with OpenCV's
    convention of sending a point of zero denominator to the origin. *)
Definition projective_map (M : Matrix) (p : Q * Q) : Q * Q :=
  let '((m0, m1, m2), (m3, m4, m5), (m6, m7, m8)) := M in
  let '(x, y) := p in
  let w := (x * m6 + y * m7 + m8)%Q in
  if Qeq_bool w 0 then (0%Q, 0%Q)
  else (((x * m0 + y * m1 + m2) / w)%Q, ((x * m3 + y * m4 + m5) / w)%Q).

(** *** Perspective correction: the source corners *)

(** An array of integer points as a float32 array ([dtype=np.float32],
    [astype(np.float32)]). *)
Definition as_float32 (pts : list point) : list point :=
  (λ p : point, (f32 p.1, f32 p.2)) <$> pts.

(** Steps 3 and 4 of [perspective_correction]: [approx] is the polygon
    approximated for the largest contour of the crop ([None] when the crop
    has no contour), [w] and [h] are the width and height of the crop.  A
    polygon of 4 vertices gives the corners, anything else the corners of
    the crop; either is made a float32 array, and [order_corners] puts the
    corners in order. *)
Definition source_corners (approx : option (list point)) (w h : Z)
  : res (list point) :=
  let src_corners : option (list point) :=
    match approx with
    | Some poly => if (List.length poly =? 4)%nat then Some poly else None
    | None => None
    end in
  let src_corners : list point :=
    match src_corners with
    | None => as_float32 [(0, 0); (w - 1, 0); (w - 1, h - 1); (0, h - 1)]%Z
    | Some corners => as_float32 corners
    end in
  order_corners src_corners.

End BoardGeometry.
Import BoardGeometry.

(** ** [app/detector.py] *)

Module Detector.

(** One box of the piece model's result: class id, corners, score. *)
Record Box : Type := { cls : Q; xyxy : Q * Q * Q * Q; conf : Q }.

(** One [Results] object of the model. *)
Record Results : Type := { boxes : list Box; names : gmap Z string }.

(** [ChessDetector.detect_pieces] from the model's prediction on. *)
Definition detect_pieces (results : list Results) : list Detection :=
  match results with
  | [] => []
  | r :: _ =>
      (λ b,
         let cls_id := int_of_Q (cls b) in
         let '(x1, y1, x2, y2) := xyxy b in
         {| class_name :=
              default ("unknown_" +:+ str cls_id) (names r !! cls_id);
            bbox := (round x1 2, round y1 2, round x2 2, round y2 2);
            confidence := round (conf b) 4 |}) <$> boxes r
  end.

(** One element of the ["pieces"] list of the response. *)
Record PieceEntry : Type :=
  { piece : string; square : string; entry_confidence : Q }.

(** The dict returned by [full_pipeline]. *)
Record PipelineResult : Type :=
  { fen : option string;
    board_detected : bool;
    pieces : list PieceEntry;
    pipeline_errors : list string }.

Section Pipeline.

Variable perspectiveTransform : Matrix → Q * Q → Q * Q.

(** The square the confidence pass of [full_pipeline] computes for a
    detection (the loop body down to [sq = file_char + rank_char]). *)
Definition pipeline_square (det : Detection) (board_bbox : Z * Z * Z * Z)
    (warp_matrix : Matrix) : res string :=
  let '(b0, b1, b2, b3) := bbox det in
  let cx := ((b0 + b2) / 2)%Q in
  let cy := ((b1 + b3) / 2)%Q in
  let '(bx1, by1, _, _) := board_bbox in
  let cx_rel := (cx - inject_Z bx1)%Q in
  let cy_rel := (cy - inject_Z by1)%Q in
  let '(wx, wy) := perspectiveTransform warp_matrix (cx_rel, cy_rel) in
  let col := Z.min (Z.max (int_of_Q (wx / 80)) 0) 7 in
  let row := Z.min (Z.max (int_of_Q (wy / 80)) 0) 7 in
  file_char ← str_getitem "abcdefgh" col;
  let rank_char := str (8 - row) in
  Ok (file_char +:+ rank_char).

(** Body of the loop that rebuilds the per-square confidence. *)
Definition confidence_step (board_bbox : Z * Z * Z * Z)
    (warp_matrix : Matrix) (square_confidence : gmap string Q)
    (det : Detection) : res (gmap string Q) :=
  sq ← pipeline_square det board_bbox warp_matrix;
  replace ←
    (if negb (dict_contains square_confidence sq) then Ok true
     else old ← dict_getitem square_confidence sq;
          Ok (Qgtb (confidence det) old));
  if replace : bool
  then Ok (<[sq := confidence det]> square_confidence)
  else Ok square_confidence.

(** [full_pipeline] from the outputs of its three vision steps: the
    board detection ([None] when no board was found), the warp matrix
    of [perspective_correction], and the piece model's prediction.
    The items of a dict are listed in the order of [map_to_list]. *)
Definition full_pipeline (board_info : option (Z * Z * Z * Z))
    (warp_matrix : Matrix) (piece_results : list Results)
  : res PipelineResult :=
  let errors : list string := [] in
  match board_info with
  | None =>
      Ok {| fen := None; board_detected := false; pieces := [];
            pipeline_errors := ["No board found"] |}
  | Some board_bbox =>
      let piece_detections := detect_pieces piece_results in
      square_map ←
        map_pieces_to_squares perspectiveTransform
          piece_detections board_bbox warp_matrix;
      square_confidence ←
        for_each piece_detections ∅
          (confidence_step board_bbox warp_matrix);
      let pieces_list :=
        (λ '(sq_name, piece_name),
           {| piece := piece_name;
              square := sq_name;
              entry_confidence :=
                round (dict_get square_confidence sq_name 0%Q) 4 |})
          <$> map_to_list square_map in
      fen ← generate_fen square_map;
      validation ← validate_fen fen;
      let errors :=
        if negb (valid validation)
        then errors ++ FenGenerator.errors validation
        else errors in
      Ok {| fen := Some fen; board_detected := true;
            pieces := pieces_list; pipeline_errors := errors |}
  end.

End Pipeline.

(** The dict returned by [detect_board]. *)
Record BoardInfo : Type :=
  { detected : bool;
    board_bbox : option (Z * Z * Z * Z);
    board_confidence : option Q }.

(** [boxes.conf.argmax()]: index of the first greatest score. *)
Fixpoint argmax_conf_from (i best_i : nat) (best : Q) (l : list Q) : nat :=
  match l with
  | [] => best_i
  | x :: l' =>
      if Qgtb x best then argmax_conf_from (S i) i x l'
      else argmax_conf_from (S i) best_i best l'
  end.

Definition argmax_conf (l : list Q) : res nat :=
  match l with
  | [] => Raise ValueError
  | x :: l' => Ok (argmax_conf_from 1 0 x l')
  end.

(** [ChessDetector.detect_board] from the board model's prediction on. *)
Definition detect_board (results : list Results) : res BoardInfo :=
  let not_detected :=
    {| detected := false; board_bbox := None; board_confidence := None |} in
  match results with
  | [] => Ok not_detected
  | r :: _ =>
      if (List.length (boxes r) =? 0)%nat then Ok not_detected
      else
        best_idx ← argmax_conf (conf <$> boxes r);
        best ← list_getitem (boxes r) best_idx;
        let '(x1, y1, x2, y2) := xyxy best in
        Ok {| detected := true;
              board_bbox :=
                Some (round_half_even x1, round_half_even y1,
                      round_half_even x2, round_half_even y2);
              board_confidence := Some (round (conf best) 4) |}
  end.

End Detector.
Import Detector.

(** ** [utils/image_utils.py] *)

Module ImageUtils.

(** The first step of [base64_to_image]: an optional data-URI prefix is cut
    off the payload. *)
Definition strip_data_uri (base64_str : string) : res string :=
  if contains "," base64_str && startswith base64_str "data:"
  then list_getitem (split_once "," base64_str) 1
  else Ok base64_str.

End ImageUtils.
Import ImageUtils.

(** ** Specification-level definitions *)

Module Spec.

(** The 64 squares, in the order [generate_fen] visits them. *)
Definition FILES : list string := ["a"; "b"; "c"; "d"; "e"; "f"; "g"; "h"].
Definition RANKS : list Z := [8; 7; 6; 5; 4; 3; 2; 1]%Z.
Definition squares_of_rank (rank_num : Z) : list string :=
  (λ f, f +:+ str rank_num) <$> FILES.
Definition SQUARES : list string := RANKS ≫= squares_of_rank.

(** The twelve labels of [ChessDetector.PIECE_CLASSES]. *)
Definition PIECE_CLASSES : list string :=
  [ "black_bishop"; "black_king"; "black_knight";
    "black_pawn"; "black_queen"; "black_rook";
    "white_bishop"; "white_king"; "white_knight";
    "white_pawn"; "white_queen"; "white_rook" ].

(** What [generate_fen] writes for a square: nothing when the square is
    not a key of the map, else the character of the label. *)
Definition fen_char (square_map : gmap string string) (square : string)
  : option string :=
  (λ piece_class, dict_get PIECE_TO_FEN piece_class "?")
    <$> square_map !! square.

(** Run-length encoding of one rank, cell by cell. *)
Definition cell_step (st : string * Z) (cell : option string) : string * Z :=
  let '(rank_str, empty_count) := st in
  match cell with
  | Some ch =>
      if (0 <? empty_count)%Z then (rank_str +:+ str empty_count +:+ ch, 0%Z)
      else (rank_str +:+ ch, empty_count)
  | None => (rank_str, (empty_count + 1)%Z)
  end.

Definition flush (st : string * Z) : string :=
  let '(rank_str, empty_count) := st in
  if (0 <? empty_count)%Z then rank_str +:+ str empty_count else rank_str.

Definition rank_string (square_map : gmap string string) (rank_num : Z)
  : string :=
  flush (foldl cell_step (EmptyString, 0%Z)
           (fen_char square_map <$> squares_of_rank rank_num)).

Definition board_string (square_map : gmap string string) : string :=
  join "/" (rank_string square_map <$> RANKS).

(** The board field the validator looks at. *)
Definition board_field (fen : string) : string :=
  hd fen (split " " fen).

(** The number of squares a rank group stands for: a digit counts for its
    value, any other character for one. *)
Definition char_squares (ch : ascii) : Z :=
  if isdecimal ch then (Z.of_nat (nat_of_ascii ch) - 48)%Z else 1%Z.
Definition rank_total (rank : string) : Z :=
  foldl (λ total ch, total + char_squares ch)%Z 0%Z
    (list_ascii_of_string rank).

(** A character that [isdigit] accepts and [int] rejects, and a string that
    holds one. *)
Definition superscript_digit (c : ascii) : bool :=
  isdigit c && negb (isdecimal c).
Definition has_superscript_digit (s : string) : bool :=
  existsb superscript_digit (list_ascii_of_string s).

(** The five checks of [validate_fen], each on its own. *)
Definition rank_count_errors (board_part : string) : list string :=
  let n := List.length (split "/" board_part) in
  if (n =? 8)%nat then []
  else ["Expected 8 ranks separated by '/', found " +:+
        str (Z.of_nat n) +:+ "."].

Definition invalid_char_errors (board_part : string) : list string :=
  list_ascii_of_string board_part ≫= λ ch,
    if Ascii.eqb ch "/" || bool_decide (ch ∈ _VALID_BOARD_CHARS) then []
    else ["Invalid character '" +:+ String ch "' in board portion."].

Definition rank_sum_errors (board_part : string) : list string :=
  enumerate (split "/" board_part) ≫= λ '(i, rank),
    if (rank_total rank =? 8)%Z then []
    else ["Rank " +:+ str (8 - i) +:+ " ('" +:+ rank +:+ "') sums to " +:+
          str (rank_total rank) +:+ " squares; expected 8."].

Definition king_errors (board_part : string) : list string :=
  (if (count "K" board_part =? 1)%nat then []
   else ["Expected exactly 1 white king ('K'), found " +:+
         str (Z.of_nat (count "K" board_part)) +:+ "."]) ++
  (if (count "k" board_part =? 1)%nat then []
   else ["Expected exactly 1 black king ('k'), found " +:+
         str (Z.of_nat (count "k" board_part)) +:+ "."]).

Definition pawn_errors (board_part : string) : list string :=
  (if (count "P" board_part <=? 8)%nat then []
   else ["White has " +:+ str (Z.of_nat (count "P" board_part)) +:+
         " pawns; maximum is 8."]) ++
  (if (count "p" board_part <=? 8)%nat then []
   else ["Black has " +:+ str (Z.of_nat (count "p" board_part)) +:+
         " pawns; maximum is 8."]).

(** A rank-count violation, recognised by its text. *)
Definition is_rank_count_error (e : string) : bool :=
  startswith e "Expected 8 ranks".

(** A rank-sum violation, recognised by its text. *)
Definition is_rank_sum_error (e : string) : bool :=
  startswith e "Rank ".

(** How many squares of the map carry a given label. *)
Definition label_count (square_map : gmap string string) (label : string)
  : nat :=
  List.length (filter (λ kv, kv.2 = label) (map_to_list square_map)).

(** The shape of what [generate_fen] writes for an occupied square: one
    character, not a digit, not a separator. *)
Definition piece_char (ch : string) : Prop :=
  ∃ c, ch = String c EmptyString ∧ isdecimal c = false ∧
       c ≠ "/"%char ∧ c ≠ " "%char.

(** The cells of a rank, as [generate_fen] meets them: each occupied
    cell contributes one piece character. *)
Definition cells_ok (cells : list (option string)) : Prop :=
  Forall (λ cell, ∀ ch, cell = Some ch → piece_char ch) cells.

(** All the violations of a board field, check by check, in the order
    [validate_fen] reports them. *)
Definition all_errors (board_part : string) : list string :=
  rank_count_errors board_part ++ invalid_char_errors board_part ++
  rank_sum_errors board_part ++ king_errors board_part ++
  pawn_errors board_part.

(** The two quantities of the corner rule, x+y and x−y, and what
    [order_corners] computes for them in float32. *)
Definition coord_sum (p : point) : Z := (p.1 + p.2)%Z.
Definition coord_diff (p : point) : Z := (p.1 - p.2)%Z.
Definition sum32 (p : point) : Z := f32_add p.1 p.2.
Definition diff32 (p : point) : Z := f32_sub p.1 p.2.

(** A point whose coordinates are at most 2^23 = 8388608 in magnitude: on
    such points every float32 sum and difference is exact. *)
Definition in_exact_range (p : point) : Prop :=
  (Z.abs p.1 ≤ 2 ^ 23 ∧ Z.abs p.2 ≤ 2 ^ 23)%Z.

(** Index [i] holds the first occurrence of the least (greatest) value. *)
Definition first_min (l : list Z) (i : nat) : Prop :=
  ∃ m, l !! i = Some m ∧
       (∀ j x, l !! j = Some x → (m ≤ x)%Z) ∧
       (∀ j x, l !! j = Some x → (j < i)%nat → (m < x)%Z).
Definition first_max (l : list Z) (i : nat) : Prop :=
  ∃ m, l !! i = Some m ∧
       (∀ j x, l !! j = Some x → (x ≤ m)%Z) ∧
       (∀ j x, l !! j = Some x → (j < i)%nat → (x < m)%Z).

(** Detection [d], at index [i] of the list, wins square [sq]: it lands
    there, no detection landing there has a higher confidence, and every
    earlier one landing there has a strictly lower one. *)
Definition wins (square_of : Detection → res string)
    (dets : list Detection) (sq : string) (i : nat) (d : Detection) : Prop :=
  dets !! i = Some d ∧ square_of d = Ok sq ∧
  ∀ j d', dets !! j = Some d' → square_of d' = Ok sq →
          (confidence d' <= confidence d)%Q ∧
          ((j < i)%nat → (confidence d' < confidence d)%Q).

(** The state of the mapping loop after the detections [dets]: a square is
    a key of both dicts or of neither; a key maps to the label and the
    confidence of the detection that wins it. *)
Definition place_inv (square_of : Detection → res string)
    (dets : list Detection)
    (square_map : gmap string string) (square_conf : gmap string Q) : Prop :=
  ∀ sq,
    match square_map !! sq, square_conf !! sq with
    | Some label, Some c =>
        ∃ i d, wins square_of dets sq i d ∧
               label = class_name d ∧ c = confidence d
    | None, None => ∀ d, d ∈ dets → square_of d ≠ Ok sq
    | _, _ => False
    end.

(** [clamp(x, 0, 7)]. *)
Definition clamp07 (x : Z) : Z := Z.min (Z.max x 0) 7.

(** Reading a rank string back: a digit stands for that many empty cells,
    any other character for an occupied cell. *)
Definition decode_char (ch : ascii) : list (option string) :=
  if isdecimal ch then replicate (Z.to_nat (char_squares ch)) None
  else [Some (String ch EmptyString)].
Definition decode_rank (rank : string) : list (option string) :=
  list_ascii_of_string rank ≫= decode_char.

(** No two digits side by side. *)
Fixpoint no_adjacent_digits (l : list ascii) : bool :=
  match l with
  | a :: (b :: _) as rest =>
      negb (isdecimal a && isdecimal b) && no_adjacent_digits rest
  | _ => true
  end.

(** The label of a square is one [generate_fen] has no character for. *)
Definition unknown_label_at (square_map : gmap string string)
    (square : string) : bool :=
  match square_map !! square with
  | Some label => negb (dict_contains PIECE_TO_FEN label)
  | None => false
  end.

(** An invalid-character violation, recognised by its text. *)
Definition is_invalid_char_error (e : string) : bool :=
  startswith e "Invalid character".

(** Whether a list of characters ends, or starts, with a digit. *)
Definition last_digit (l : list ascii) : bool :=
  match last l with Some c => isdecimal c | None => false end.
Definition head_digit (l : list ascii) : bool :=
  match l with c :: _ => isdecimal c | [] => false end.

(** The rank string under construction has no two digits side by side and
    does not end with a digit. *)
Definition open_run (rank_str : string) : Prop :=
  no_adjacent_digits (list_ascii_of_string rank_str) = true ∧
  last_digit (list_ascii_of_string rank_str) = false.

End Spec.
Import Spec.

(** * Properties *)

Local Arguments String.append !_ _ /.

(** ** The embedding at work *)

Example str_samples :
  str 8 = "8" ∧ str 0 = "0" ∧ str (-1) = "-1" ∧ str 12 = "12".
Proof. repeat split; reflexivity. Qed.

Example split_samples :
  split "/" "a//b" = ["a"; EmptyString; "b"] ∧ split " " "x" = ["x"] ∧
  split " " "8/8 w - 0" = ["8/8"; "w"; "-"; "0"].
Proof. repeat split; reflexivity. Qed.

Example round_samples :
  round (12345 # 100000) 4 = (1234 # 10000)%Q ∧
  round (12355 # 100000) 4 = (1236 # 10000)%Q ∧
  round (9 # 10) 4 = (9000 # 10000)%Q ∧
  round (-15 # 10) 0 = (-2 # 1)%Q.
Proof. repeat split; reflexivity. Qed.

Example generate_fen_two_kings :
  generate_fen {[ "e1" := "white_king"; "e8" := "black_king" ]} =
  Ok "4k3/8/8/8/8/8/8/4K3 w KQkq - 0 1".
Proof. by vm_compute. Qed.

Example generate_fen_unknown_label_and_key :
  generate_fen {[ "a8" := "dragon"; "z9" := "white_king" ]} =
  Ok "?7/8/8/8/8/8/8/8 w KQkq - 0 1".
Proof. by vm_compute. Qed.

Example validate_fen_many_defects :
  validate_fen "8/8/8/8/x7/9/8 w KQkq - 0 1" =
  Ok {| valid := false;
        errors := [ "Expected 8 ranks separated by '/', found 7.";
                    "Invalid character 'x' in board portion.";
                    "Invalid character '9' in board portion.";
                    "Rank 3 ('9') sums to 9 squares; expected 8.";
                    "Expected exactly 1 white king ('K'), found 0.";
                    "Expected exactly 1 black king ('k'), found 0." ] |}.
Proof. by vm_compute. Qed.

Example validate_fen_superscript :
  validate_fen (String "179" "p4/8/8/8/8/8/8/8 w KQkq - 0 1") =
    Raise ValueError ∧
  validate_fen (String "188" "7/8/8/8/8/8/8/8 w KQkq - 0 1") =
    Ok {| valid := false;
          errors := [ "Invalid character '" +:+ String "188" "' in board portion.";
                      "Expected exactly 1 white king ('K'), found 0.";
                      "Expected exactly 1 black king ('k'), found 0." ] |}.
Proof. split; by vm_compute. Qed.

Example order_corners_three_points :
  order_corners [(0, 0); (1, 1); (2, 2)]%Z = Raise ValueError.
Proof. reflexivity. Qed.

Example order_corners_equal_sums :
  order_corners [(1, 0); (0, 1); (1, 0); (0, 1)]%Z =
  Ok [(1, 0); (1, 0); (1, 0); (0, 1)]%Z.
Proof. by vm_compute. Qed.

Example detect_board_two_boxes :
  detect_board
    [ {| boxes := [ {| cls := 0; xyxy := (10, 20, 300, 310)%Q;
                       conf := (6 # 10)%Q |};
                    {| cls := 0; xyxy := (21 # 2, 41 # 2, 603 # 2, 311)%Q;
                       conf := (93 # 100)%Q |} ];
         names := {[ 0%Z := "board" ]} |} ] =
  Ok {| detected := true;
        board_bbox := Some (10, 20, 302, 311)%Z;
        board_confidence := Some (9300 # 10000)%Q |}.
Proof. by vm_compute. Qed.

Example strip_data_uri_samples :
  strip_data_uri "data:image/jpeg;base64,/9j/4AAQ" = Ok "/9j/4AAQ" ∧
  strip_data_uri "data:," = Ok EmptyString ∧
  strip_data_uri "data:nocomma" = Ok "data:nocomma" ∧
  strip_data_uri "x,data:y" = Ok "x,data:y".
Proof. repeat split; reflexivity. Qed.

Example source_corners_quadrilateral :
  source_corners (Some [(90, 110); (5, 3); (100, 8); (-4, 97)]%Z) 200 100 =
  Ok [(5, 3); (100, 8); (90, 110); (-4, 97)]%Z.
Proof. by vm_compute. Qed.

Example grid_square_outside :
  grid_square (-100) 1000 = Ok "a1" ∧ grid_square (-1 # 2) 79 = Ok "a8".
Proof. split; by vm_compute. Qed.

Example grid_square_float_samples :
  grid_square_float (Finite (-100)) (Finite 1000) = Ok "a1" ∧
  grid_square_float (Infinity true) (Finite 0) = Raise OverflowError ∧
  grid_square_float NaN (Infinity false) = Raise ValueError.
Proof. repeat split; by vm_compute. Qed.

Example f32_samples :
  f32 16777215 = 16777215%Z ∧ f32 16777217 = 16777216%Z ∧
  f32 16777219 = 16777220%Z ∧ f32 (-33554435) = (-33554436)%Z ∧
  f32 (2 ^ 127 + 2 ^ 103) = (2 ^ 127)%Z ∧
  f32 (2 ^ 128 - 2 ^ 103) = (2 ^ 128)%Z ∧ f32 (2 ^ 130) = (2 ^ 128)%Z.
Proof. repeat split; by vm_compute. Qed.

Example order_corners_float32_ties :
  order_corners [(16777216, 0); (16777216, 1); (0, 16777216); (1, 16777216)]%Z
  = Ok [(16777216, 0); (16777216, 1); (16777216, 0); (0, 16777216)]%Z ∧
  order_corners [(3, 0); (16777216, -16777213); (16777215, -16777212); (0, 3)]%Z
  = Ok [(3, 0); (16777215, -16777212); (3, 0); (16777216, -16777213)]%Z.
Proof. split; by vm_compute. Qed.

(** ** The exception monad *)

Lemma bind_Ok {A B} (a : A) (k : A → res B) : (Ok a ≫= k) = k a.
Proof. reflexivity. Qed.

Lemma bind_Ok_inv {A B} (m : res A) (k : A → res B) (b : B) :
  m ≫= k = Ok b → ∃ a, m = Ok a ∧ k a = Ok b.
Proof. destruct m as [a|e]; [eauto | discriminate]. Qed.

Lemma for_each_app {A St} (xs ys : list A) (st : St) body :
  for_each (xs ++ ys) st body = for_each xs st body ≫= λ st', for_each ys st' body.
Proof.
  revert st; induction xs as [|x xs IH]; intros st; [reflexivity|].
  simpl. destruct (body st x) as [st'|e]; [apply IH | reflexivity].
Qed.

(** A loop whose body never raises is a left fold. *)
Lemma for_each_foldl {A St} (g : St → A → St) (xs : list A) (st : St) body :
  (∀ st x, x ∈ xs → body st x = Ok (g st x)) →
  for_each xs st body = Ok (foldl g st xs).
Proof.
  revert st; induction xs as [|x xs IH]; intros st Hbody; [reflexivity|].
  simpl. rewrite Hbody by left. rewrite bind_Ok.
  apply IH. intros st' y Hy. apply Hbody. by right.
Qed.

(** ** Strings *)

Lemma string_app_nil_r (s : string) : s +:+ EmptyString = s.
Proof. induction s as [|a s IH]; [reflexivity | simpl; by rewrite IH]. Qed.

Lemma string_app_assoc (s1 s2 s3 : string) :
  (s1 +:+ s2) +:+ s3 = s1 +:+ (s2 +:+ s3).
Proof. induction s1 as [|a s1 IH]; [reflexivity | simpl; by rewrite IH]. Qed.

Lemma chars_app (s1 s2 : string) :
  list_ascii_of_string (s1 +:+ s2) =
  list_ascii_of_string s1 ++ list_ascii_of_string s2.
Proof. induction s1 as [|a s1 IH]; [reflexivity | simpl; by rewrite IH]. Qed.

Lemma count_app (c : ascii) (s1 s2 : string) :
  count c (s1 +:+ s2) = count c s1 + count c s2.
Proof. induction s1 as [|a s1 IH]; [reflexivity | simpl; rewrite IH; lia]. Qed.

Lemma contains_app (c : ascii) (s1 s2 : string) :
  contains c (s1 +:+ s2) = contains c s1 || contains c s2.
Proof.
  induction s1 as [|a s1 IH]; [reflexivity | simpl].
  by destruct (Ascii.eqb a c).
Qed.

Lemma contains_chars (c : ascii) (s : string) :
  contains c s = false ↔ Forall (λ a, a ≠ c) (list_ascii_of_string s).
Proof.
  induction s as [|a s IH]; simpl.
  - split; [constructor | done].
  - destruct (Ascii.eqb_spec a c) as [->|Hne].
    + split; [done | intros H; inversion H; congruence].
    + rewrite IH. split; [by constructor | by inversion 1].
Qed.

Lemma split_nonempty (sep : ascii) (s : string) : split sep s ≠ [].
Proof.
  destruct s as [|a s]; [done | simpl].
  destruct (Ascii.eqb a sep); [done|]. by destruct (split sep s).
Qed.

Lemma split_no_sep (sep : ascii) (s : string) :
  contains sep s = false → split sep s = [s].
Proof.
  induction s as [|a s IH]; [done | simpl].
  destruct (Ascii.eqb a sep); [done|]. intros H. by rewrite IH.
Qed.

Lemma split_app_sep (sep : ascii) (s1 s2 : string) :
  contains sep s1 = false →
  split sep (s1 +:+ String sep s2) = s1 :: split sep s2.
Proof.
  induction s1 as [|a s1 IH]; simpl.
  - by rewrite Ascii.eqb_refl.
  - destruct (Ascii.eqb a sep); [done|]. intros H. by rewrite IH.
Qed.

Lemma split_join (sep : ascii) (pieces : list string) :
  pieces ≠ [] →
  Forall (λ p, contains sep p = false) pieces →
  split sep (join (String sep EmptyString) pieces) = pieces.
Proof.
  intros Hne Hall. unfold join.
  induction Hall as [|p ps Hp Hps IH]; [done|].
  destruct ps as [|q ps]; simpl.
  - by apply split_no_sep.
  - rewrite split_app_sep by done. f_equal. by apply IH.
Qed.

Lemma count_join (sep c : ascii) (pieces : list string) :
  c ≠ sep →
  count c (join (String sep EmptyString) pieces) =
  foldr (λ p n, count c p + n) 0 pieces.
Proof.
  intros Hc. unfold join. induction pieces as [|p ps IH]; [done|].
  destruct ps as [|q ps].
  - simpl. lia.
  - change (String.concat _ (p :: q :: ps))
      with (p +:+ String sep (String.concat (String sep EmptyString) (q :: ps))).
    rewrite count_app. cbn [count]. rewrite IH.
    destruct (Ascii.eqb_spec sep c); [congruence|]. simpl. lia.
Qed.

Lemma chars_join (P : ascii → Prop) (sep : ascii) (pieces : list string) :
  P sep →
  Forall (λ p, Forall P (list_ascii_of_string p)) pieces →
  Forall P (list_ascii_of_string (join (String sep EmptyString) pieces)).
Proof.
  intros Hsep Hall. unfold join.
  induction Hall as [|p ps Hp Hps IH]; [constructor|].
  destruct ps as [|q ps]; [done|].
  change (String.concat _ (p :: q :: ps))
    with (p +:+ String sep (String.concat (String sep EmptyString) (q :: ps))).
  rewrite chars_app. apply Forall_app. split; [done|].
  constructor; [done | apply IH].
Qed.

(** [str] of a run length is one digit character of that value. *)
Lemma str_run_length (n : Z) :
  (1 ≤ n ≤ 8)%Z →
  ∃ c, str n = String c EmptyString ∧ isdecimal c = true ∧
       char_squares c = n ∧ c ∈ _VALID_BOARD_CHARS.
Proof.
  intros Hn.
  assert (n = 1 ∨ n = 2 ∨ n = 3 ∨ n = 4 ∨ n = 5 ∨ n = 6 ∨ n = 7 ∨ n = 8)%Z
    as Hcases by lia.
  repeat destruct Hcases as [->|Hcases]; try subst n;
    eexists; (split; [reflexivity|]); (split; [reflexivity|]);
    (split; [reflexivity|]); apply (bool_decide_unpack _); by vm_compute.
Qed.

(** ** [generate_fen] *)

Lemma for_each_foldl_zip {A B St} (g : St → B → St) body
    (xs : list A) (ys : list B) (st : St) :
  Forall2 (λ x y, ∀ st, body st x = Ok (g st y)) xs ys →
  for_each xs st body = Ok (foldl g st ys).
Proof.
  intros Hall. revert st.
  induction Hall as [|x y xs ys Hxy _ IH]; intros st; [reflexivity|].
  simpl. rewrite Hxy, bind_Ok. apply IH.
Qed.

Lemma str_getitem_nonneg (s : string) (i : Z) (c : ascii) :
  (0 ≤ i)%Z →
  String.get (Z.to_nat i) s = Some c →
  str_getitem s i = Ok (String c EmptyString).
Proof.
  intros Hpos Hget. unfold str_getitem.
  assert ((i <? 0)%Z = false) as Hlt by (apply Z.ltb_ge; lia).
  rewrite Hlt. cbv beta iota zeta. by rewrite Hlt, Hget.
Qed.

Lemma file_step_cell square_map rank_num st file_idx c :
  (0 ≤ file_idx)%Z →
  String.get (Z.to_nat file_idx) "abcdefgh" = Some c →
  file_step square_map rank_num st file_idx =
  Ok (cell_step st (fen_char square_map (String c EmptyString +:+ str rank_num))).
Proof.
  intros Hpos Hget. destruct st as [rank_str empty_count].
  unfold file_step. rewrite (str_getitem_nonneg _ _ c), bind_Ok by done.
  unfold dict_contains, dict_getitem, fen_char, cell_step.
  destruct (square_map !! _) as [piece_class|]; [|reflexivity].
  destruct (0 <? empty_count)%Z; [|reflexivity].
  simpl. by rewrite string_app_assoc.
Qed.

Lemma rank_loop square_map rank_num st :
  for_each (range 8) st (file_step square_map rank_num) =
  Ok (foldl cell_step st (fen_char square_map <$> squares_of_rank rank_num)).
Proof.
  apply for_each_foldl_zip.
  repeat constructor; intros st'; by apply file_step_cell.
Qed.

Lemma rank_step_string square_map ranks rank_num :
  rank_step square_map ranks rank_num =
  Ok (ranks ++ [rank_string square_map rank_num]).
Proof.
  unfold rank_step, rank_string. rewrite rank_loop, bind_Ok.
  by destruct (foldl _ _ _).
Qed.

(** [generate_fen] never raises, and its value is the board string followed
    by the fixed fields. *)
Lemma generate_fen_board square_map :
  generate_fen square_map = Ok (board_string square_map +:+ " w KQkq - 0 1").
Proof.
  unfold generate_fen.
  rewrite (for_each_foldl (λ ranks r, ranks ++ [rank_string square_map r]))
    by (intros; apply rank_step_string).
  reflexivity.
Qed.

(** *** The shape of a rank string *)

Lemma PIECE_TO_FEN_lookup piece_class ch :
  PIECE_TO_FEN !! piece_class = Some ch →
  (piece_class, ch) ∈
    [ ("white_king", "K"); ("white_queen", "Q"); ("white_rook", "R");
      ("white_bishop", "B"); ("white_knight", "N"); ("white_pawn", "P");
      ("black_king", "k"); ("black_queen", "q"); ("black_rook", "r");
      ("black_bishop", "b"); ("black_knight", "n"); ("black_pawn", "p") ].
Proof. unfold PIECE_TO_FEN. apply elem_of_list_to_map_2. Qed.

Lemma PIECE_TO_FEN_get_char piece_class :
  piece_char (dict_get PIECE_TO_FEN piece_class "?").
Proof.
  unfold dict_get.
  destruct (PIECE_TO_FEN !! piece_class) as [ch|] eqn:Hch; simpl.
  - apply PIECE_TO_FEN_lookup in Hch.
    repeat (apply elem_of_cons in Hch as [Hch|Hch];
            [injection Hch as -> ->; by eexists|]).
    by apply elem_of_nil in Hch.
  - by eexists.
Qed.

Lemma fen_char_piece_char square_map square ch :
  fen_char square_map square = Some ch → piece_char ch.
Proof.
  unfold fen_char. destruct (square_map !! square); [|done].
  intros [= <-]. apply PIECE_TO_FEN_get_char.
Qed.

Lemma rank_total_shift (l : list ascii) (a : Z) :
  foldl (λ total ch, total + char_squares ch)%Z a l =
  (a + foldl (λ total ch, total + char_squares ch) 0 l)%Z.
Proof.
  revert a; induction l as [|c l IH]; intros a; simpl; [lia|].
  rewrite (IH (a + _)%Z), (IH (0 + _)%Z). lia.
Qed.

Lemma rank_total_app (s1 s2 : string) :
  rank_total (s1 +:+ s2) = (rank_total s1 + rank_total s2)%Z.
Proof.
  unfold rank_total. rewrite chars_app, foldl_app. apply rank_total_shift.
Qed.

Lemma rank_total_char (c : ascii) :
  rank_total (String c EmptyString) = char_squares c.
Proof. reflexivity. Qed.

Lemma cells_of_rank_ok square_map rank_num :
  cells_ok (fen_char square_map <$> squares_of_rank rank_num).
Proof.
  apply Forall_fmap, Forall_forall. intros square _ ch.
  apply fen_char_piece_char.
Qed.

(** Each rank string stands for as many squares as there are cells. *)
Lemma encode_total cells :
  cells_ok cells →
  ∀ rank_str empty_count,
    (0 ≤ empty_count)%Z →
    (empty_count + Z.of_nat (List.length cells) ≤ 8)%Z →
    rank_total (flush (foldl cell_step (rank_str, empty_count) cells)) =
    (rank_total rank_str + empty_count + Z.of_nat (List.length cells))%Z.
Proof.
  induction 1 as [|cell cells Hcell _ IH]; intros rs ec Hec Hlen.
  - simpl in *. destruct (Z.ltb_spec 0 ec) as [Hpos|Hzero]; [|lia].
    destruct (str_run_length ec) as (c & -> & _ & Hc & _); [lia|].
    rewrite rank_total_app, rank_total_char. lia.
  - rewrite length_cons in Hlen. cbn [foldl cell_step].
    destruct cell as [ch|].
    + destruct (Hcell ch eq_refl) as (c & -> & Hnd & _).
      assert (char_squares c = 1%Z) as Hone
        by (unfold char_squares; by rewrite Hnd).
      destruct (Z.ltb_spec 0 ec) as [Hpos|Hzero].
      * destruct (str_run_length ec) as (d & -> & _ & Hd & _); [lia|].
        rewrite IH by lia. rewrite !rank_total_app, !rank_total_char.
        rewrite length_cons. lia.
      * rewrite IH by lia. rewrite rank_total_app, rank_total_char.
        rewrite length_cons. lia.
    + rewrite IH by lia. rewrite length_cons. lia.
Qed.

(** Every character of a rank string is a run length [1..8] or the
    character of an occupied cell. *)
Lemma encode_chars (P : ascii → Prop) cells :
  (∀ c, c ∈ list_ascii_of_string "12345678" → P c) →
  Forall (λ cell, ∀ ch, cell = Some ch →
                        Forall P (list_ascii_of_string ch)) cells →
  ∀ rank_str empty_count,
    (0 ≤ empty_count)%Z →
    (empty_count + Z.of_nat (List.length cells) ≤ 8)%Z →
    Forall P (list_ascii_of_string rank_str) →
    Forall P (list_ascii_of_string
                (flush (foldl cell_step (rank_str, empty_count) cells))).
Proof.
  intros Hdigits.
  assert (∀ n, (1 ≤ n ≤ 8)%Z → Forall P (list_ascii_of_string (str n)))
    as Hrun.
  { intros n Hn.
    assert (n = 1 ∨ n = 2 ∨ n = 3 ∨ n = 4 ∨ n = 5 ∨ n = 6 ∨ n = 7 ∨ n = 8)%Z
      as Hcases by lia.
    repeat destruct Hcases as [->|Hcases]; try subst n;
      (constructor; [|constructor]); apply Hdigits;
      apply (bool_decide_unpack _); by vm_compute. }
  induction 1 as [|cell cells Hcell _ IH]; intros rs ec Hec Hlen Hrs.
  - simpl in *. destruct (Z.ltb_spec 0 ec) as [Hpos|Hzero]; [|done].
    rewrite chars_app. apply Forall_app. split; [done | apply Hrun; lia].
  - rewrite length_cons in Hlen. cbn [foldl cell_step].
    destruct cell as [ch|]; [|apply IH; [lia | lia | done]].
    specialize (Hcell ch eq_refl).
    destruct (Z.ltb_spec 0 ec) as [Hpos|Hzero]; apply IH; try lia.
    + rewrite !chars_app, !Forall_app. repeat split; [done | | done].
      apply Hrun; lia.
    + rewrite chars_app. apply Forall_app. by split.
Qed.

(** A character that is not a digit occurs in a rank string once per cell
    that carries it. *)
Lemma encode_count (c : ascii) cells :
  isdecimal c = false →
  cells_ok cells →
  ∀ rank_str empty_count,
    (0 ≤ empty_count)%Z →
    (empty_count + Z.of_nat (List.length cells) ≤ 8)%Z →
    count c (flush (foldl cell_step (rank_str, empty_count) cells)) =
    count c rank_str +
    List.length (filter (λ cell, cell = Some (String c EmptyString)) cells).
Proof.
  intros Hc.
  assert (∀ n, (1 ≤ n ≤ 8)%Z → count c (str n) = 0) as Hrun.
  { intros n Hn. destruct (str_run_length n) as (d & -> & Hd & _); [done|].
    simpl. destruct (Ascii.eqb_spec d c); [congruence | done]. }
  induction 1 as [|cell cells Hcell _ IH]; intros rs ec Hec Hlen.
  - simpl in *. destruct (Z.ltb_spec 0 ec) as [Hpos|Hzero]; [|lia].
    rewrite count_app, Hrun by lia. lia.
  - rewrite length_cons in Hlen. cbn [foldl cell_step].
    rewrite filter_cons. destruct cell as [ch|].
    + destruct (Hcell ch eq_refl) as (a & -> & _).
      assert (count c (String a EmptyString) =
              if decide (Some (String a EmptyString) = Some (String c EmptyString))
              then 1 else 0) as Hone.
      { simpl. destruct (Ascii.eqb_spec a c) as [->|Hne].
        - by rewrite decide_True.
        - rewrite decide_False; [done | congruence]. }
      destruct (Z.ltb_spec 0 ec) as [Hpos|Hzero]; rewrite IH by lia;
        rewrite ?count_app, ?Hrun, Hone by lia;
        case_decide; simpl; lia.
    + rewrite IH by lia. rewrite decide_False by done. lia.
Qed.

Lemma rank_string_total square_map rank_num :
  rank_total (rank_string square_map rank_num) = 8%Z.
Proof.
  unfold rank_string.
  rewrite encode_total by (try apply cells_of_rank_ok; done).
  reflexivity.
Qed.

Lemma rank_string_chars (P : ascii → Prop) square_map rank_num :
  (∀ c, c ∈ list_ascii_of_string "12345678" → P c) →
  (∀ square ch, fen_char square_map square = Some ch →
                Forall P (list_ascii_of_string ch)) →
  Forall P (list_ascii_of_string (rank_string square_map rank_num)).
Proof.
  intros Hdigits Hcells. unfold rank_string.
  apply encode_chars; [done | | done | done | constructor].
  apply Forall_fmap, Forall_forall. intros square _ ch. apply Hcells.
Qed.

Lemma rank_string_no_sep (sep : ascii) square_map rank_num :
  sep = "/"%char ∨ sep = " "%char →
  contains sep (rank_string square_map rank_num) = false.
Proof.
  intros Hsep. apply contains_chars, rank_string_chars.
  - intros c Hc Heq. subst c.
    destruct Hsep as [-> | ->]; by apply (bool_decide_pack _) in Hc.
  - intros square ch Hch.
    destruct (fen_char_piece_char _ _ _ Hch) as (c & -> & _ & H1 & H2).
    constructor; [|constructor]. destruct Hsep as [-> | ->]; done.
Qed.

Lemma rank_string_count (c : ascii) square_map rank_num :
  isdecimal c = false →
  count c (rank_string square_map rank_num) =
  List.length
    (filter (λ square, fen_char square_map square = Some (String c EmptyString))
            (squares_of_rank rank_num)).
Proof.
  intros Hc. unfold rank_string.
  rewrite (encode_count c) by (try apply cells_of_rank_ok; done).
  simpl count. generalize (squares_of_rank rank_num) as squares.
  induction squares as [|square squares IH]; [done|].
  rewrite fmap_cons, !filter_cons.
  repeat case_decide; simpl in *; first [done | lia].
Qed.

(** *** The board field *)

Lemma board_string_split square_map :
  split "/" (board_string square_map) = rank_string square_map <$> RANKS.
Proof.
  apply split_join; [done|].
  apply Forall_fmap, Forall_forall. intros r _. apply rank_string_no_sep. by left.
Qed.

Lemma board_string_no_space square_map :
  contains " " (board_string square_map) = false.
Proof.
  apply contains_chars, chars_join; [done|].
  apply Forall_fmap, Forall_forall. intros r _.
  apply contains_chars, rank_string_no_sep. by right.
Qed.

Lemma board_field_generated square_map tail :
  board_field (board_string square_map +:+ String " " tail) =
  board_string square_map.
Proof.
  unfold board_field.
  by rewrite split_app_sep by apply board_string_no_space.
Qed.

Lemma board_string_count (c : ascii) square_map :
  isdecimal c = false → c ≠ "/"%char →
  count c (board_string square_map) =
  List.length
    (filter (λ square, fen_char square_map square = Some (String c EmptyString))
            SQUARES).
Proof.
  intros Hc Hsep. unfold board_string. rewrite count_join by done.
  unfold SQUARES. induction RANKS as [|r ranks IH]; [done|].
  rewrite fmap_cons, bind_cons, filter_app, length_app. simpl foldr.
  by rewrite IH, rank_string_count.
Qed.

(** ** [validate_fen] *)

Lemma foldl_collect {A B} (f : A → list B) (l : list A) (acc : list B) :
  foldl (λ acc x, acc ++ f x) acc l = acc ++ (l ≫= f).
Proof.
  revert acc; induction l as [|x l IH]; intros acc; simpl.
  - by rewrite app_nil_r.
  - rewrite IH. symmetry. apply app_assoc.
Qed.

Lemma foldl_pointwise {A St} (f g : St → A → St) (l : list A) (st : St) :
  (∀ st x, f st x = g st x) → foldl f st l = foldl g st l.
Proof.
  intros Hfg. revert st; induction l as [|x l IH]; intros st; [done|].
  simpl. by rewrite Hfg, IH.
Qed.

Lemma board_part_field (fen : string) :
  (if contains " " fen then list_getitem (split " " fen) 0 else Ok fen) =
  Ok (board_field fen).
Proof.
  unfold board_field. destruct (contains " " fen) eqn:Hsp.
  - pose proof (split_nonempty " " fen). by destruct (split " " fen).
  - by rewrite split_no_sep.
Qed.

Lemma char_loop (board_part : string) (errors : list string) :
  foldl char_step errors (list_ascii_of_string board_part) =
  errors ++ invalid_char_errors board_part.
Proof.
  unfold invalid_char_errors. rewrite <- foldl_collect.
  apply foldl_pointwise. intros errs ch. unfold char_step.
  destruct (Ascii.eqb ch "/"), (bool_decide _); simpl;
    by rewrite ?app_nil_r.
Qed.

(** A loop whose body raises on the items a test picks, and only on
    them, raises when the list holds such an item and is a left fold
    otherwise. *)
Lemma for_each_raise_or_foldl {A St} (bad : A → bool) (g : St → A → St)
    (e : exn) (xs : list A) (st : St) body :
  (∀ st x, body st x = if bad x then Raise e else Ok (g st x)) →
  for_each xs st body =
  if existsb bad xs then Raise e else Ok (foldl g st xs).
Proof.
  intros Hbody. revert st; induction xs as [|x xs IH]; intros st; [done|].
  simpl. rewrite Hbody. destruct (bad x); [done|]. simpl. apply IH.
Qed.

Lemma existsb_false_Forall {A} (f : A → bool) (l : list A) :
  existsb f l = false ↔ Forall (λ x, f x = false) l.
Proof.
  induction l as [|x l IH]; simpl.
  - split; [constructor | done].
  - rewrite orb_false_iff, Forall_cons. by rewrite IH.
Qed.

Lemma existsb_enumerate {A} (f : A → bool) (l : list A) :
  existsb (λ ir : Z * A, f ir.2) (enumerate l) = existsb f l.
Proof.
  unfold enumerate.
  assert (∀ h : nat → Z,
            existsb (λ ir : Z * A, f ir.2) (imap (λ i x, (h i, x)) l) =
            existsb f l) as Hgen.
  { induction l as [|x l IH]; intros h; [done|].
    simpl. f_equal. apply (IH (h ∘ S)). }
  apply (Hgen Z.of_nat).
Qed.

Lemma superscript_digit_decimal (c : ascii) :
  isdecimal c = true → superscript_digit c = false.
Proof. unfold superscript_digit. intros ->. apply andb_false_r. Qed.

(** The separator is no digit, so the rank groups hold a superscript
    exactly when the board field does. *)
Lemma has_superscript_digit_split (board_part : string) :
  existsb has_superscript_digit (split "/" board_part) =
  has_superscript_digit board_part.
Proof.
  unfold has_superscript_digit.
  induction board_part as [|a s IH]; [done|].
  cbn [split]. destruct (Ascii.eqb_spec a "/") as [->|Hne].
  - cbn. by rewrite IH.
  - pose proof (split_nonempty "/" s) as Hs.
    destruct (split "/" s) as [|piece rest]; [done|].
    cbn in *. by rewrite <- IH, orb_assoc.
Qed.

Lemma total_step_cases (total : Z) (ch : ascii) :
  total_step total ch =
  if superscript_digit ch then Raise ValueError
  else Ok (total + char_squares ch)%Z.
Proof.
  unfold total_step, int_of_char, char_squares, superscript_digit, isdigit.
  destruct (isdecimal ch); simpl; [done|].
  by destruct (bool_decide _).
Qed.

Lemma total_loop (rank : string) :
  for_each (list_ascii_of_string rank) 0%Z total_step =
  if has_superscript_digit rank then Raise ValueError
  else Ok (rank_total rank).
Proof. apply for_each_raise_or_foldl, total_step_cases. Qed.

Lemma rank_sum_loop (board_part : string) (errors : list string) :
  for_each (enumerate (split "/" board_part)) errors rank_sum_step =
  if has_superscript_digit board_part then Raise ValueError
  else Ok (errors ++ rank_sum_errors board_part).
Proof.
  unfold rank_sum_errors. rewrite <- foldl_collect.
  rewrite <- has_superscript_digit_split, <- existsb_enumerate.
  apply for_each_raise_or_foldl. intros errs [i rank].
  unfold rank_sum_step. rewrite total_loop. simpl.
  destruct (has_superscript_digit rank); [done|]. rewrite bind_Ok.
  destruct (rank_total rank =? 8)%Z; simpl; by rewrite ?app_nil_r.
Qed.

(** [validate_fen] raises [ValueError] when the board field holds one of
    the superscripts; otherwise its error list is the concatenation of the
    five checks, each a function of the board field alone. *)
Lemma validate_fen_run (fen : string) :
  validate_fen fen =
  if has_superscript_digit (board_field fen) then Raise ValueError
  else Ok {| valid := (List.length (all_errors (board_field fen)) =? 0)%nat;
             errors := all_errors (board_field fen) |}.
Proof.
  unfold validate_fen. rewrite board_part_field, bind_Ok.
  set (bp := board_field fen).
  rewrite char_loop, rank_sum_loop.
  destruct (has_superscript_digit bp); [done|]. rewrite bind_Ok.
  assert (∀ n k : nat, (Z.of_nat n =? Z.of_nat k)%Z = (n =? k)%nat) as Heqb.
  { intros n k. destruct (Nat.eqb_spec n k) as [->|Hne].
    - apply Z.eqb_refl.
    - apply Z.eqb_neq. lia. }
  assert (∀ n, (8 <? Z.of_nat n)%Z = negb (n <=? 8)%nat) as Hltb.
  { intros n. destruct (Nat.leb_spec n 8); simpl.
    - apply Z.ltb_ge. lia.
    - apply Z.ltb_lt. lia. }
  rewrite (Heqb _ 1), (Heqb _ 1), !Hltb.
  assert (all_errors bp =
    (((((([] ++ rank_count_errors bp) ++ invalid_char_errors bp) ++
        rank_sum_errors bp) ++
       (if (count "K" bp =? 1)%nat then []
        else ["Expected exactly 1 white king ('K'), found " +:+
              str (Z.of_nat (count "K" bp)) +:+ "."])) ++
      (if (count "k" bp =? 1)%nat then []
       else ["Expected exactly 1 black king ('k'), found " +:+
             str (Z.of_nat (count "k" bp)) +:+ "."])) ++
     (if (count "P" bp <=? 8)%nat then []
      else ["White has " +:+ str (Z.of_nat (count "P" bp)) +:+
            " pawns; maximum is 8."])) ++
    (if (count "p" bp <=? 8)%nat then []
     else ["Black has " +:+ str (Z.of_nat (count "p" bp)) +:+
           " pawns; maximum is 8."])) as ->.
  { unfold all_errors, king_errors, pawn_errors.
    by rewrite <- !app_assoc. }
  unfold rank_count_errors.
  destruct (List.length (split "/" bp) =? 8)%nat,
    (count "K" bp =? 1)%nat, (count "k" bp =? 1)%nat,
    (count "P" bp <=? 8)%nat, (count "p" bp <=? 8)%nat;
    simpl; rewrite ?app_nil_r; reflexivity.
Qed.

Lemma validate_fen_checks (fen : string) :
  has_superscript_digit (board_field fen) = false →
  validate_fen fen =
  Ok {| valid := (List.length (all_errors (board_field fen)) =? 0)%nat;
        errors := all_errors (board_field fen) |}.
Proof. intros Hsup. by rewrite validate_fen_run, Hsup. Qed.

Lemma validate_fen_raises (fen : string) :
  has_superscript_digit (board_field fen) = true →
  validate_fen fen = Raise ValueError.
Proof. intros Hsup. by rewrite validate_fen_run, Hsup. Qed.

(** *** Telling the violations apart *)

Lemma filter_keep {A} (P : A → Prop) `{∀ x, Decision (P x)} (l : list A) :
  Forall P l → filter P l = l.
Proof.
  induction 1 as [|x l Hx _ IH]; [done|].
  by rewrite filter_cons, decide_True, IH.
Qed.

Lemma filter_drop {A} (P : A → Prop) `{∀ x, Decision (P x)} (l : list A) :
  Forall (λ x, ¬ P x) l → filter P l = [].
Proof.
  induction 1 as [|x l Hx _ IH]; [done|].
  by rewrite filter_cons, decide_False, IH.
Qed.

Lemma Forall_bind_list {A B} (P : B → Prop) (f : A → list B) (l : list A) :
  (∀ x, Forall P (f x)) → Forall P (l ≫= f).
Proof.
  intros Hf. induction l as [|x l IH]; [constructor|].
  rewrite bind_cons. apply Forall_app. by split.
Qed.

Lemma rank_count_errors_kind board_part :
  Forall (λ e, is_rank_count_error e = true ∧ is_rank_sum_error e = false)
         (rank_count_errors board_part).
Proof.
  unfold rank_count_errors. destruct (_ =? 8)%nat; repeat constructor.
Qed.

Lemma invalid_char_errors_kind board_part :
  Forall (λ e, is_rank_count_error e = false ∧ is_rank_sum_error e = false)
         (invalid_char_errors board_part).
Proof.
  apply Forall_bind_list. intros ch.
  destruct (_ || _); repeat constructor.
Qed.

Lemma rank_sum_errors_kind board_part :
  Forall (λ e, is_rank_count_error e = false ∧ is_rank_sum_error e = true)
         (rank_sum_errors board_part).
Proof.
  apply Forall_bind_list. intros [i rank].
  destruct (_ =? 8)%Z; repeat constructor.
Qed.

Lemma king_errors_kind board_part :
  Forall (λ e, is_rank_count_error e = false ∧ is_rank_sum_error e = false)
         (king_errors board_part).
Proof.
  unfold king_errors.
  destruct (count "K" _ =? 1)%nat, (count "k" _ =? 1)%nat;
    repeat constructor.
Qed.

Lemma pawn_errors_kind board_part :
  Forall (λ e, is_rank_count_error e = false ∧ is_rank_sum_error e = false)
         (pawn_errors board_part).
Proof.
  unfold pawn_errors.
  destruct (count "P" _ <=? 8)%nat, (count "p" _ <=? 8)%nat;
    repeat constructor.
Qed.

Lemma rank_count_errors_filter board_part :
  filter (λ e, is_rank_count_error e = true) (all_errors board_part) =
  rank_count_errors board_part.
Proof.
  unfold all_errors. rewrite !filter_app.
  rewrite (filter_keep _ (rank_count_errors _)),
    (filter_drop _ (invalid_char_errors _)),
    (filter_drop _ (rank_sum_errors _)),
    (filter_drop _ (king_errors _)),
    (filter_drop _ (pawn_errors _)).
  - by rewrite !app_nil_r.
  - eapply Forall_impl; [apply pawn_errors_kind|]. intros e [-> _]; done.
  - eapply Forall_impl; [apply king_errors_kind|]. intros e [-> _]; done.
  - eapply Forall_impl; [apply rank_sum_errors_kind|]. intros e [-> _]; done.
  - eapply Forall_impl; [apply invalid_char_errors_kind|].
    intros e [-> _]; done.
  - eapply Forall_impl; [apply rank_count_errors_kind|]. by intros e [-> _].
Qed.

Lemma bind_nil_all {A B} (f : A → list B) (l : list A) :
  (∀ x, x ∈ l → f x = []) → l ≫= f = [].
Proof.
  induction l as [|x l IH]; intros Hf; [done|].
  rewrite bind_cons, Hf by left. apply IH. intros y Hy. apply Hf. by right.
Qed.

Lemma rank_sum_errors_none board_part :
  Forall (λ rank, rank_total rank = 8%Z) (split "/" board_part) →
  rank_sum_errors board_part = [].
Proof.
  intros Hall. apply bind_nil_all. intros [i rank] Hin.
  apply elem_of_lookup_imap in Hin as (j & r & [= -> ->] & Hr).
  rewrite Forall_forall in Hall.
  rewrite (Hall r) by (eapply list_elem_of_lookup_2; done). reflexivity.
Qed.

Lemma generated_fen_field square_map :
  board_field (board_string square_map +:+ " w KQkq - 0 1") =
  board_string square_map.
Proof. apply (board_field_generated square_map "w KQkq - 0 1"). Qed.

Lemma generated_ranks_total square_map :
  Forall (λ rank, rank_total rank = 8%Z) (split "/" (board_string square_map)).
Proof.
  rewrite board_string_split. apply Forall_fmap, Forall_forall.
  intros r _. apply rank_string_total.
Qed.

Lemma fen_char_no_superscript square_map square ch :
  fen_char square_map square = Some ch →
  Forall (λ c, superscript_digit c = false) (list_ascii_of_string ch).
Proof.
  unfold fen_char, dict_get.
  destruct (square_map !! square) as [label|]; [|done]. intros [= <-].
  destruct (PIECE_TO_FEN !! label) as [ch|] eqn:Hch; simpl.
  - apply PIECE_TO_FEN_lookup in Hch.
    repeat (apply elem_of_cons in Hch as [Hch|Hch];
            [injection Hch as -> ->; by repeat constructor|]).
    by apply elem_of_nil in Hch.
  - by repeat constructor.
Qed.

(** What [generate_fen] writes holds none of the superscripts. *)
Lemma board_string_no_superscript square_map :
  has_superscript_digit (board_string square_map) = false.
Proof.
  apply existsb_false_Forall, chars_join; [done|].
  apply Forall_fmap, Forall_forall. intros r _.
  apply rank_string_chars.
  - intros c Hc. simpl in Hc.
    repeat (apply elem_of_cons in Hc as [->|Hc]; [done|]).
    by apply elem_of_nil in Hc.
  - apply fen_char_no_superscript.
Qed.

(** On a string [generate_fen] wrote, [validate_fen] never raises. *)
Lemma validate_fen_generated square_map :
  validate_fen (board_string square_map +:+ " w KQkq - 0 1") =
  Ok {| valid :=
          (List.length
             (all_errors
                (board_field (board_string square_map +:+ " w KQkq - 0 1")))
           =? 0)%nat;
        errors :=
          all_errors
            (board_field (board_string square_map +:+ " w KQkq - 0 1")) |}.
Proof.
  apply validate_fen_checks.
  rewrite generated_fen_field. apply board_string_no_superscript.
Qed.

(** C9.  On the empty occupancy map [generate_fen] returns exactly
    "8/8/8/8/8/8/8/8 w KQkq - 0 1"; for every map it returns a board field
    followed by the fixed fields " w KQkq - 0 1", so that splitting the
    result at the spaces gives the board field, then w, KQkq, -, 0 and 1,
    whatever the map holds. *)
Theorem generate_fen_fixed_fields :
  generate_fen ∅ = Ok "8/8/8/8/8/8/8/8 w KQkq - 0 1" ∧
  ∀ square_map : gmap string string,
    ∃ board_part,
      generate_fen square_map = Ok (board_part +:+ " w KQkq - 0 1") ∧
      split " " (board_part +:+ " w KQkq - 0 1") =
      [board_part; "w"; "KQkq"; "-"; "0"; "1"].
Proof.
  split; [by vm_compute|].
  intros square_map. exists (board_string square_map).
  split; [apply generate_fen_board|].
  change " w KQkq - 0 1" with (String " " "w KQkq - 0 1").
  by rewrite split_app_sep by apply board_string_no_space.
Qed.

(** C10.  For every square-to-label map, valid keys and labels or not,
    [generate_fen] returns a string whose board field splits at '/' into
    exactly 8 rank groups, each standing for exactly 8 squares (a digit
    counts for its value, any other character for one); [validate_fen] on
    that string reports neither a rank-count nor a rank-sum violation. *)
Theorem generate_fen_rank_groups (square_map : gmap string string) :
  ∃ fen,
    generate_fen square_map = Ok fen ∧
    List.length (split "/" (board_field fen)) = 8 ∧
    Forall (λ rank, rank_total rank = 8%Z) (split "/" (board_field fen)) ∧
    rank_count_errors (board_field fen) = [] ∧
    rank_sum_errors (board_field fen) = [] ∧
    ∃ v, validate_fen fen = Ok v ∧
         Forall (λ e, is_rank_count_error e = false ∧
                      is_rank_sum_error e = false) (errors v).
Proof.
  eexists. split; [apply generate_fen_board|].
  rewrite generated_fen_field.
  assert (List.length (split "/" (board_string square_map)) = 8) as Hlen
    by (by rewrite board_string_split).
  pose proof (generated_ranks_total square_map) as Htot.
  assert (rank_count_errors (board_string square_map) = []) as Hcount
    by (unfold rank_count_errors; by rewrite Hlen).
  pose proof (rank_sum_errors_none _ Htot) as Hsum.
  repeat (split; [done|]).
  eexists. split; [apply validate_fen_generated|]. simpl errors.
  rewrite generated_fen_field. unfold all_errors. rewrite Hcount, Hsum.
  simpl. rewrite !Forall_app.
  auto using invalid_char_errors_kind, king_errors_kind, pawn_errors_kind.
Qed.

(** C8.  On a board field that holds none of the superscripts ², ³, ¹
    [validate_fen] returns, and it is valid exactly when its
    list of violations is empty; that list is the violations of the
    rank-count, the character, the rank-sum, the king and the pawn check
    one after the other, each computed from the board field alone, none
    cut short by an earlier one; on "8/8/8/8/8/8/8/8 w KQkq - 0 1" it is
    invalid with exactly the two king violations; on a board field of 7
    rank groups it is invalid and exactly one of its violations is a
    rank-count violation, whatever else is wrong with the field.  On a
    board field that holds one of the superscripts it returns nothing: the
    rank-sum loop takes the character for a digit ([isdigit] accepts it),
    [int] rejects it, and the call ends in [ValueError], as on
    "²/8/8/8/8/8/8/8 w KQkq - 0 1" and on the 7 rank groups of
    "²/8/8/8/8/8/8 w KQkq - 0 1". *)
Theorem validate_fen_collects_all :
  (∀ fen,
     has_superscript_digit (board_field fen) = false →
     ∃ v,
       validate_fen fen = Ok v ∧
       (valid v = true ↔ errors v = []) ∧
       errors v =
         rank_count_errors (board_field fen) ++
         invalid_char_errors (board_field fen) ++
         rank_sum_errors (board_field fen) ++
         king_errors (board_field fen) ++
         pawn_errors (board_field fen)) ∧
  validate_fen "8/8/8/8/8/8/8/8 w KQkq - 0 1" =
    Ok {| valid := false;
          errors := ["Expected exactly 1 white king ('K'), found 0.";
                     "Expected exactly 1 black king ('k'), found 0."] |} ∧
  (∀ fen,
     has_superscript_digit (board_field fen) = false →
     List.length (split "/" (board_field fen)) = 7 →
     ∃ v,
       validate_fen fen = Ok v ∧ valid v = false ∧
       filter (λ e, is_rank_count_error e = true) (errors v) =
         ["Expected 8 ranks separated by '/', found 7."]) ∧
  (∀ fen,
     has_superscript_digit (board_field fen) = true →
     validate_fen fen = Raise ValueError) ∧
  isdigit "178" = true ∧ int_of_char "178" = Raise ValueError ∧
  validate_fen (String "178" "/8/8/8/8/8/8/8 w KQkq - 0 1") =
    Raise ValueError ∧
  List.length (split "/" (String "178" "/8/8/8/8/8/8")) = 7 ∧
  validate_fen (String "178" "/8/8/8/8/8/8 w KQkq - 0 1") =
    Raise ValueError.
Proof.
  split; [|split; [by vm_compute|split; [|split]]].
  - intros fen Hsup. eexists. split; [by apply validate_fen_checks|].
    split; [|reflexivity]. simpl.
    destruct (all_errors (board_field fen)); simpl; split; done.
  - intros fen Hsup Hlen. eexists. split; [by apply validate_fen_checks|].
    simpl. rewrite rank_count_errors_filter.
    assert (rank_count_errors (board_field fen) =
            ["Expected 8 ranks separated by '/', found 7."]) as Hcount
      by (unfold rank_count_errors; by rewrite Hlen).
    split; [|done].
    unfold all_errors. by rewrite Hcount.
  - apply validate_fen_raises.
  - repeat split; by vm_compute.
Qed.

Lemma validate_fen_collects_all_witness :
  (∃ v, validate_fen "8/8/8/8/x7/9/8 w KQkq - 0 1" = Ok v ∧ valid v = false ∧
        filter (λ e, is_rank_count_error e = true) (errors v) =
          ["Expected 8 ranks separated by '/', found 7."]) ∧
  (∃ v, validate_fen "4k3/8/8/8/8/8/8/4K3 w KQkq - 0 1" = Ok v ∧
        (valid v = true ↔ errors v = [])) ∧
  validate_fen (String "8" (String "/" (String "185" "7/8 b - - 3 9"))) =
    Raise ValueError.
Proof.
  destruct validate_fen_collects_all as (Hall & _ & Hseven & Hraise & _).
  split; [by apply Hseven|]. split; [|by apply Hraise].
  destruct (Hall "4k3/8/8/8/8/8/8/4K3 w KQkq - 0 1" eq_refl)
    as (v & Hv & Hvalid & _).
  by exists v.
Defined.

(** ** Round trip: generating, then validating *)

Lemma SQUARES_NoDup : NoDup SQUARES.
Proof. apply (bool_decide_unpack _). by vm_compute. Qed.

(** On a map whose keys are squares, the entries that carry a label are the
    squares that carry it. *)
Lemma label_count_squares (square_map : gmap string string) (label : string) :
  (∀ square, is_Some (square_map !! square) → square ∈ SQUARES) →
  label_count square_map label =
  List.length (filter (λ square, square_map !! square = Some label) SQUARES).
Proof.
  intros Hkeys. unfold label_count.
  rewrite <- (length_fmap fst). apply Permutation_length, NoDup_Permutation.
  - eapply sublist_NoDup; [apply (NoDup_fst_map_to_list square_map)|].
    apply fmap_sublist, sublist_filter.
  - apply NoDup_filter, SQUARES_NoDup.
  - intros square. rewrite list_elem_of_fmap, list_elem_of_filter. split.
    + intros ([k v] & -> & [Hv Hkv]%list_elem_of_filter). simpl in *.
      apply elem_of_map_to_list in Hkv. subst v. split; [done|].
      apply Hkeys. by rewrite Hkv.
    + intros [Hsq _]. exists (square, label). split; [done|].
      apply list_elem_of_filter. split; [done|].
      by apply elem_of_map_to_list.
Qed.

(** On the twelve labels the character table is one-to-one. *)
Lemma PIECE_TO_FEN_valid (label : string) :
  label ∈ PIECE_CLASSES →
  (label, dict_get PIECE_TO_FEN label "?") ∈
    [ ("white_king", "K"); ("white_queen", "Q"); ("white_rook", "R");
      ("white_bishop", "B"); ("white_knight", "N"); ("white_pawn", "P");
      ("black_king", "k"); ("black_queen", "q"); ("black_rook", "r");
      ("black_bishop", "b"); ("black_knight", "n"); ("black_pawn", "p") ].
Proof.
  intros Hlabel. unfold PIECE_CLASSES in Hlabel.
  repeat (apply elem_of_cons in Hlabel as [->|Hlabel];
          [apply (bool_decide_unpack _); by vm_compute|]).
  by apply elem_of_nil in Hlabel.
Qed.

Lemma fen_char_label (square_map : gmap string string) square label c :
  (∀ square label, square_map !! square = Some label →
                   label ∈ PIECE_CLASSES) →
  (label, String c EmptyString) ∈
    [ ("white_king", "K"); ("black_king", "k");
      ("white_pawn", "P"); ("black_pawn", "p") ] →
  fen_char square_map square = Some (String c EmptyString) ↔
  square_map !! square = Some label.
Proof.
  intros Hvalid Hpair. unfold fen_char.
  destruct (square_map !! square) as [label'|] eqn:Hsq; simpl.
  - pose proof (PIECE_TO_FEN_valid _ (Hvalid _ _ Hsq)) as Htable.
    repeat (apply elem_of_cons in Hpair as [[= -> ->]|Hpair];
            [clear -Htable;
             repeat (apply elem_of_cons in Htable as [[= -> ->]|Htable];
                     [split; intros [=]; done|]);
             by apply elem_of_nil in Htable|]).
    by apply elem_of_nil in Hpair.
  - split; intros [=].
Qed.

Lemma board_string_label_count (square_map : gmap string string) label c :
  (∀ square, is_Some (square_map !! square) → square ∈ SQUARES) →
  (∀ square label, square_map !! square = Some label →
                   label ∈ PIECE_CLASSES) →
  (label, String c EmptyString) ∈
    [ ("white_king", "K"); ("black_king", "k");
      ("white_pawn", "P"); ("black_pawn", "p") ] →
  count c (board_string square_map) = label_count square_map label.
Proof.
  intros Hkeys Hvalid Hpair.
  rewrite label_count_squares by done.
  rewrite board_string_count.
  - f_equal. apply list_filter_iff. intros square. by apply fen_char_label.
  - repeat (apply elem_of_cons in Hpair as [[= -> ->]|Hpair]; [done|]).
    by apply elem_of_nil in Hpair.
  - repeat (apply elem_of_cons in Hpair as [[= -> ->]|Hpair]; [done|]).
    by apply elem_of_nil in Hpair.
Qed.

Lemma board_string_valid_chars (square_map : gmap string string) :
  (∀ square label, square_map !! square = Some label →
                   label ∈ PIECE_CLASSES) →
  invalid_char_errors (board_string square_map) = [].
Proof.
  intros Hvalid. apply bind_nil_all. intros ch Hch.
  assert (Forall (λ c, c = "/"%char ∨ c ∈ _VALID_BOARD_CHARS)
            (list_ascii_of_string (board_string square_map))) as Hall.
  { apply chars_join; [by left|].
    apply Forall_fmap, Forall_forall. intros r _.
    apply rank_string_chars.
    - intros c Hc. right. simpl in Hc.
      repeat (apply elem_of_cons in Hc as [->|Hc];
              [apply (bool_decide_unpack _); by vm_compute|]).
      by apply elem_of_nil in Hc.
    - intros square ch' Hch'. unfold fen_char in Hch'.
      destruct (square_map !! square) as [label|] eqn:Hsq; [|done].
      injection Hch' as <-.
      pose proof (PIECE_TO_FEN_valid _ (Hvalid _ _ Hsq)) as Htable.
      repeat (apply elem_of_cons in Htable as [[= -> ->]|Htable];
              [repeat constructor; right;
               apply (bool_decide_unpack _); by vm_compute|]).
      by apply elem_of_nil in Htable. }
  rewrite Forall_forall in Hall. destruct (Hall ch Hch) as [->|Hin]; [done|].
  rewrite (bool_decide_eq_true_2 _ Hin). by rewrite orb_true_r.
Qed.

(** C2.  For every occupancy map whose keys are among the 64 squares and
    whose values are among the twelve piece labels, [generate_fen] followed
    by [validate_fen] reports no violation exactly when the map holds one
    white king, one black king, at most 8 white pawns and at most 8 black
    pawns. *)
Theorem generate_then_validate (square_map : gmap string string) :
  map_Forall (λ square _, square ∈ SQUARES) square_map →
  map_Forall (λ _ label, label ∈ PIECE_CLASSES) square_map →
  ∃ fen v,
    generate_fen square_map = Ok fen ∧
    validate_fen fen = Ok v ∧
    (errors v = [] ↔
       label_count square_map "white_king" = 1 ∧
       label_count square_map "black_king" = 1 ∧
       (label_count square_map "white_pawn" ≤ 8)%nat ∧
       (label_count square_map "black_pawn" ≤ 8)%nat).
Proof.
  intros Hkeys Hvalid.
  assert (∀ square, is_Some (square_map !! square) → square ∈ SQUARES)
    as Hkeys' by (intros square [label Hsq]; by apply (Hkeys _ _ Hsq)).
  assert (∀ label c,
            (label, String c EmptyString) ∈
              [ ("white_king", "K"); ("black_king", "k");
                ("white_pawn", "P"); ("black_pawn", "p") ] →
            count c (board_string square_map) = label_count square_map label)
    as Hcount by (intros; by apply board_string_label_count).
  do 2 eexists. split; [apply generate_fen_board|].
  split; [apply validate_fen_generated|]. simpl errors.
  rewrite generated_fen_field. unfold all_errors.
  rewrite board_string_valid_chars by done.
  rewrite rank_sum_errors_none by apply generated_ranks_total.
  unfold rank_count_errors. rewrite board_string_split. simpl.
  unfold king_errors, pawn_errors.
  rewrite (Hcount "white_king" "K"%char), (Hcount "black_king" "k"%char),
    (Hcount "white_pawn" "P"%char), (Hcount "black_pawn" "p"%char)
    by (apply (bool_decide_unpack _); by vm_compute).
  destruct (Nat.eqb_spec (label_count square_map "white_king") 1),
    (Nat.eqb_spec (label_count square_map "black_king") 1),
    (Nat.leb_spec (label_count square_map "white_pawn") 8),
    (Nat.leb_spec (label_count square_map "black_pawn") 8);
    simpl; split; first [done | intros (?&?&?&?); lia | intros; repeat split; lia].
Qed.

Lemma generate_then_validate_witness :
  ∃ fen v,
    generate_fen {[ "e1" := "white_king"; "e8" := "black_king";
                    "a2" := "white_pawn" ]} = Ok fen ∧
    validate_fen fen = Ok v ∧
    (errors v = [] ↔
       label_count {[ "e1" := "white_king"; "e8" := "black_king";
                      "a2" := "white_pawn" ]} "white_king" = 1 ∧
       label_count {[ "e1" := "white_king"; "e8" := "black_king";
                      "a2" := "white_pawn" ]} "black_king" = 1 ∧
       (label_count {[ "e1" := "white_king"; "e8" := "black_king";
                       "a2" := "white_pawn" ]} "white_pawn" ≤ 8)%nat ∧
       (label_count {[ "e1" := "white_king"; "e8" := "black_king";
                       "a2" := "white_pawn" ]} "black_pawn" ≤ 8)%nat).
Proof.
  apply generate_then_validate;
    apply (bool_decide_unpack _); by vm_compute.
Defined.

(** ** [order_corners] *)

Lemma argmin_from_first_min (l pre : list Z) (best_i : nat) (best : Z) :
  pre !! best_i = Some best →
  first_min pre best_i →
  first_min (pre ++ l) (argmin_from (List.length pre) best_i best l).
Proof.
  revert pre best_i best.
  induction l as [|x l IH]; intros pre bi best Hbi Hmin.
  - by rewrite app_nil_r.
  - destruct Hmin as (m & Hm & Hle & Hlt).
    assert (m = best) as -> by congruence.
    simpl. rewrite (cons_middle x pre l), app_assoc.
    replace (S (List.length pre)) with (List.length (pre ++ [x]))
      by (rewrite length_app; simpl; lia).
    destruct (Z.ltb_spec x best) as [Hx|Hx]; apply IH.
    + by rewrite lookup_app_r, Nat.sub_diag.
    + exists x. split; [by rewrite lookup_app_r, Nat.sub_diag|].
      split; intros j y Hy.
      * apply lookup_app_Some in Hy as [Hy|[_ Hy]].
        -- specialize (Hle _ _ Hy). lia.
        -- apply list_lookup_singleton_Some in Hy as [_ ->]. lia.
      * intros Hj. rewrite lookup_app_l in Hy by done.
        specialize (Hle _ _ Hy). lia.
    + rewrite lookup_app_l; [done | by eapply lookup_lt_Some].
    + exists best. split.
      { rewrite lookup_app_l; [done | by eapply lookup_lt_Some]. }
      split; intros j y Hy.
      * apply lookup_app_Some in Hy as [Hy|[_ Hy]]; [by eapply Hle|].
        apply list_lookup_singleton_Some in Hy as [_ ->]. lia.
      * intros Hj. apply lookup_lt_Some in Hbi.
        rewrite lookup_app_l in Hy by lia. by eapply Hlt.
Qed.

Lemma argmax_from_first_max (l pre : list Z) (best_i : nat) (best : Z) :
  pre !! best_i = Some best →
  first_max pre best_i →
  first_max (pre ++ l) (argmax_from (List.length pre) best_i best l).
Proof.
  revert pre best_i best.
  induction l as [|x l IH]; intros pre bi best Hbi Hmax.
  - by rewrite app_nil_r.
  - destruct Hmax as (m & Hm & Hle & Hlt).
    assert (m = best) as -> by congruence.
    simpl. rewrite (cons_middle x pre l), app_assoc.
    replace (S (List.length pre)) with (List.length (pre ++ [x]))
      by (rewrite length_app; simpl; lia).
    destruct (Z.ltb_spec best x) as [Hx|Hx]; apply IH.
    + by rewrite lookup_app_r, Nat.sub_diag.
    + exists x. split; [by rewrite lookup_app_r, Nat.sub_diag|].
      split; intros j y Hy.
      * apply lookup_app_Some in Hy as [Hy|[_ Hy]].
        -- specialize (Hle _ _ Hy). lia.
        -- apply list_lookup_singleton_Some in Hy as [_ ->]. lia.
      * intros Hj. rewrite lookup_app_l in Hy by done.
        specialize (Hle _ _ Hy). lia.
    + rewrite lookup_app_l; [done | by eapply lookup_lt_Some].
    + exists best. split.
      { rewrite lookup_app_l; [done | by eapply lookup_lt_Some]. }
      split; intros j y Hy.
      * apply lookup_app_Some in Hy as [Hy|[_ Hy]]; [by eapply Hle|].
        apply list_lookup_singleton_Some in Hy as [_ ->]. lia.
      * intros Hj. apply lookup_lt_Some in Hbi.
        rewrite lookup_app_l in Hy by lia. by eapply Hlt.
Qed.

(** [np.argmin] returns the first index of the least value. *)
Lemma argmin_first_min (l : list Z) :
  l ≠ [] → ∃ i, argmin l = Ok i ∧ first_min l i.
Proof.
  destruct l as [|x l]; [done | intros _].
  eexists. split; [reflexivity|].
  apply (argmin_from_first_min l [x] 0 x); [done|].
  exists x. split; [done|].
  split; intros [|j] y Hy; simplify_eq/=; lia.
Qed.

(** [np.argmax] returns the first index of the greatest value. *)
Lemma argmax_first_max (l : list Z) :
  l ≠ [] → ∃ i, argmax l = Ok i ∧ first_max l i.
Proof.
  destruct l as [|x l]; [done | intros _].
  eexists. split; [reflexivity|].
  apply (argmax_from_first_max l [x] 0 x); [done|].
  exists x. split; [done|].
  split; intros [|j] y Hy; simplify_eq/=; lia.
Qed.

(** *** Float32 sums and differences *)

(** Every whole number up to 2^24 in magnitude is a float32. *)
Lemma f32_exact (z : Z) : (Z.abs z ≤ 2 ^ 24)%Z → f32 z = z.
Proof.
  intros Hz. unfold f32.
  destruct (Z.ltb_spec (Z.abs z) (2 ^ 24)) as [Hlt|Hge]; [done|].
  change (2 ^ 24)%Z with 16777216%Z in *.
  assert (z = 16777216 ∨ z = -16777216)%Z as [-> | ->] by lia;
    by vm_compute.
Qed.

Lemma sum32_exact (p : point) : in_exact_range p → sum32 p = coord_sum p.
Proof.
  intros [H1 H2]. unfold sum32, f32_add, coord_sum. apply f32_exact.
  change (2 ^ 23)%Z with 8388608%Z in *.
  change (2 ^ 24)%Z with 16777216%Z. lia.
Qed.

Lemma diff32_exact (p : point) : in_exact_range p → diff32 p = coord_diff p.
Proof.
  intros [H1 H2]. unfold diff32, f32_sub, coord_diff. apply f32_exact.
  change (2 ^ 23)%Z with 8388608%Z in *.
  change (2 ^ 24)%Z with 16777216%Z. lia.
Qed.

Lemma sum32_fmap_exact (l : list point) :
  Forall in_exact_range l → sum32 <$> l = coord_sum <$> l.
Proof.
  intros Hl. apply list_fmap_ext. intros i p Hp.
  apply sum32_exact. rewrite Forall_forall in Hl.
  by eapply Hl, list_elem_of_lookup_2.
Qed.

Lemma as_float32_exact (l : list point) :
  Forall in_exact_range l → as_float32 l = l.
Proof.
  intros Hl. unfold as_float32. rewrite <- (list_fmap_id l) at 2.
  apply list_fmap_ext. intros i [x y] Hp.
  rewrite Forall_forall in Hl.
  destruct (Hl (x, y)) as [Hx Hy]; [by eapply list_elem_of_lookup_2|].
  simpl in *. change (2 ^ 23)%Z with 8388608%Z in *.
  rewrite !f32_exact; [done | change (2 ^ 24)%Z with 16777216%Z; lia..].
Qed.

(** *** The run of [order_corners] on four points *)

Lemma order_corners_rows (p0 p1 p2 p3 : point) :
  ∃ tl br a b ptl pbr pa pb,
    argmin (sum32 <$> [p0; p1; p2; p3]) = Ok tl ∧
    argmax (sum32 <$> [p0; p1; p2; p3]) = Ok br ∧
    first_min (sum32 <$> [p0; p1; p2; p3]) tl ∧
    first_max (sum32 <$> [p0; p1; p2; p3]) br ∧
    [p0; p1; p2; p3] !! tl = Some ptl ∧
    [p0; p1; p2; p3] !! br = Some pbr ∧
    [p0; p1; p2; p3] !! a = Some pa ∧
    [p0; p1; p2; p3] !! b = Some pb ∧
    (a < b)%nat ∧ a ≠ tl ∧ a ≠ br ∧ b ≠ tl ∧ b ≠ br ∧
    (tl ≠ br → ∀ i, (i < 4)%nat → i ∈ [tl; br; a; b]) ∧
    order_corners [p0; p1; p2; p3] =
      Ok (if (diff32 pb <? diff32 pa)%Z
          then [ptl; pa; pbr; pb] else [ptl; pb; pbr; pa]).
Proof.
  destruct (argmin_first_min (sum32 <$> [p0; p1; p2; p3]))
    as (tl & Htl & Hmin); [done|].
  destruct (argmax_first_max (sum32 <$> [p0; p1; p2; p3]))
    as (br & Hbr & Hmax); [done|].
  assert (tl < 4 ∧ br < 4)%nat as [Htl4 Hbr4].
  { destruct Hmin as (m & Hm%lookup_lt_Some & _).
    destruct Hmax as (m' & Hm'%lookup_lt_Some & _). simpl in *. lia. }
  remember (order_corners [p0; p1; p2; p3]) as out eqn:Hrun.
  unfold order_corners in Hrun.
  change ((λ p : point, f32_add p.1 p.2) <$> [p0; p1; p2; p3])
    with (sum32 <$> [p0; p1; p2; p3]) in Hrun.
  cbn [List.length Nat.eqb negb] in Hrun.
  rewrite Htl, Hbr, !bind_Ok in Hrun.
  destruct tl as [|[|[|[|]]]]; try lia; destruct br as [|[|[|[|]]]]; try lia.
  all: match type of Hrun with
       | context [filter ?P (seq 0 4)] =>
           let r := eval vm_compute in (filter P (seq 0 4)) in
           change (filter P (seq 0 4)) with r in Hrun
       end.
  all: cbn -[Z.ltb f32_sub] in Hrun.
  all: match type of Hrun with
       | context [if _ then Ok (?a, ?b) else _] =>
           match type of Hmin with first_min _ ?i =>
           match type of Hmax with first_max _ ?k => exists i, k, a, b
           end end
       end.
  all: do 4 eexists.
  all: do 4 (split; [done|]).
  all: do 4 (split; [reflexivity|]).
  all: split; [lia|]; do 4 (split; [done|]).
  all: split; [intros Hne i Hi; try done;
               destruct i as [|[|[|[|]]]]; try lia;
               apply (bool_decide_unpack _); by vm_compute|].
  all: rewrite Hrun; unfold diff32;
    match goal with |- context [(?x <? ?y)%Z] => by destruct (x <? y)%Z end.
Qed.

Lemma first_min_le (l : list point) (i : nat) (p : point) :
  first_min (sum32 <$> l) i → l !! i = Some p →
  ∀ x, x ∈ l → (sum32 p ≤ sum32 x)%Z.
Proof.
  intros (m & Hm & Hle & _) Hp x [j Hx]%list_elem_of_lookup.
  rewrite list_lookup_fmap, Hp in Hm. injection Hm as <-.
  apply (Hle j). by rewrite list_lookup_fmap, Hx.
Qed.

Lemma first_max_ge (l : list point) (i : nat) (p : point) :
  first_max (sum32 <$> l) i → l !! i = Some p →
  ∀ x, x ∈ l → (sum32 x ≤ sum32 p)%Z.
Proof.
  intros (m & Hm & Hle & _) Hp x [j Hx]%list_elem_of_lookup.
  rewrite list_lookup_fmap, Hp in Hm. injection Hm as <-.
  apply (Hle j). by rewrite list_lookup_fmap, Hx.
Qed.

(** When one point has the least float32 sum, one the greatest, and the
    two others differ in their float32 difference, the output does not
    depend on the order of the input. *)
Lemma order_corners_canonical32 (corners : list point) (tl tr br bl : point) :
  corners ≡ₚ [tl; tr; br; bl] →
  (sum32 tl < sum32 tr)%Z → (sum32 tl < sum32 bl)%Z →
  (sum32 tr < sum32 br)%Z → (sum32 bl < sum32 br)%Z →
  (diff32 bl < diff32 tr)%Z →
  order_corners corners = Ok [tl; tr; br; bl].
Proof.
  intros Hperm Htr Hbl Htr' Hbl' Hdiff.
  assert (NoDup corners) as Hnodup.
  { assert (tl ≠ tr ∧ tl ≠ br ∧ tl ≠ bl ∧ tr ≠ br ∧ tr ≠ bl ∧ br ≠ bl)
      as (?&?&?&?&?&?) by (repeat split; intros Heq; subst; lia).
    rewrite Hperm, !NoDup_cons, !not_elem_of_cons.
    repeat split; first [done | apply not_elem_of_nil | apply NoDup_nil_2]. }
  pose proof (Permutation_length Hperm) as Hlen.
  destruct corners as [|p0 [|p1 [|p2 [|p3 [|]]]]]; try done. clear Hlen.
  destruct (order_corners_rows p0 p1 p2 p3)
    as (i & k & a & b & ptl & pbr & pa & pb & _ & _ & Hmin & Hmax &
        Hi & Hk & Ha & Hb & Hab & Hai & Hak & Hbi & Hbk & _ & ->).
  set (corners := [p0; p1; p2; p3]) in *.
  assert (∀ x, x ∈ corners ↔ x = tl ∨ x = tr ∨ x = br ∨ x = bl) as Hin.
  { intros x. rewrite Hperm, !elem_of_cons, elem_of_nil. tauto. }
  pose proof (first_min_le _ _ _ Hmin Hi) as Hle.
  pose proof (first_max_ge _ _ _ Hmax Hk) as Hge.
  assert (ptl = tl) as ->.
  { pose proof (Hle tl (proj2 (Hin tl) (or_introl eq_refl))).
    apply list_elem_of_lookup_2, Hin in Hi as [-> | [-> | [-> | ->]]]; [done|lia..]. }
  assert (pbr = br) as ->.
  { pose proof (Hge br (proj2 (Hin br) (or_intror (or_intror (or_introl eq_refl))))).
    apply list_elem_of_lookup_2, Hin in Hk as [-> | [-> | [-> | ->]]]; [lia|lia|done|lia]. }
  assert (pa ≠ tl ∧ pa ≠ br ∧ pb ≠ tl ∧ pb ≠ br ∧ pa ≠ pb) as (?&?&?&?&?).
  { repeat split; intros ->;
      match goal with
      | H1 : corners !! ?x = Some ?p, H2 : corners !! ?y = Some ?p |- _ =>
          assert (x = y) by (by eapply (NoDup_lookup corners)); lia
      end. }
  apply list_elem_of_lookup_2, Hin in Ha as [-> | [-> | [-> | ->]]]; try done;
    apply list_elem_of_lookup_2, Hin in Hb as [-> | [-> | [-> | ->]]]; try done.
  - by rewrite (proj2 (Z.ltb_lt _ _)) by lia.
  - by rewrite (proj2 (Z.ltb_ge _ _)) by lia.
Qed.

(** On points of magnitude at most 2^23 the float32 sums and differences
    are the exact ones. *)
Lemma order_corners_canonical (corners : list point) (tl tr br bl : point) :
  corners ≡ₚ [tl; tr; br; bl] →
  Forall in_exact_range corners →
  (coord_sum tl < coord_sum tr)%Z → (coord_sum tl < coord_sum bl)%Z →
  (coord_sum tr < coord_sum br)%Z → (coord_sum bl < coord_sum br)%Z →
  (coord_diff bl < coord_diff tr)%Z →
  order_corners corners = Ok [tl; tr; br; bl].
Proof.
  intros Hperm Hrange ?????.
  rewrite Hperm, !Forall_cons in Hrange.
  destruct Hrange as (Htl & Htr & Hbr & Hbl & _).
  apply order_corners_canonical32; [done|..];
    rewrite ?sum32_exact, ?diff32_exact by done; done.
Qed.

(** Discharging the range condition on concrete points. *)
Ltac exact_range :=
  repeat first [apply Forall_nil_2 | apply Forall_cons_2 | split];
  by vm_compute.

(** C4, as amended.  Take four points with coordinates of magnitude at most
    2^23, of which [tl] has the strictly least x+y, [br] the strictly
    greatest, and of the two others [tr] has the greater x−y.  Given in any
    order, [order_corners] returns them as [[tl; tr; br; bl]]: index 0
    minimises x+y, index 2 maximises it, index 1 holds the greater x−y of
    the remaining two.  On the square (0,0), (100,0), (100,100), (0,100)
    it returns the input unchanged. *)
Theorem order_corners_unique_extremes :
  (∀ (corners : list point) (tl tr br bl : point),
     corners ≡ₚ [tl; tr; br; bl] →
     Forall in_exact_range corners →
     (coord_sum tl < coord_sum tr)%Z → (coord_sum tl < coord_sum bl)%Z →
     (coord_sum tr < coord_sum br)%Z → (coord_sum bl < coord_sum br)%Z →
     (coord_diff bl < coord_diff tr)%Z →
     order_corners corners = Ok [tl; tr; br; bl]) ∧
  order_corners [(0, 0); (100, 0); (100, 100); (0, 100)]%Z =
    Ok [(0, 0); (100, 0); (100, 100); (0, 100)]%Z.
Proof. split; [apply order_corners_canonical | by vm_compute]. Qed.

Lemma order_corners_unique_extremes_witness :
  order_corners [(90, 110); (5, 3); (100, 8); (-4, 97)]%Z =
    Ok [(5, 3); (100, 8); (90, 110); (-4, 97)]%Z.
Proof.
  apply (proj1 order_corners_unique_extremes); unfold coord_sum, coord_diff;
    simpl;
    first [lia | exact_range | apply (bool_decide_unpack _); by vm_compute].
Defined.

(** C4, as stated, fails beyond the range in which float32 sums are exact.
    The four points below are float32 values; (0,0) has the least x+y,
    (16777216,1) the greatest, and the two others differ in x−y.  In
    float32 the sum 16777216 + 1 is 16777216 again, the sum of (16777216,0):
    [np.argmax] takes the first of the two, and index 2 of the output does
    not maximise x+y. *)
Lemma order_corners_float32_counterexample :
  as_float32 [(0, 0); (16777216, 0); (16777216, 1); (0, 1)]%Z =
    [(0, 0); (16777216, 0); (16777216, 1); (0, 1)]%Z ∧
  (coord_sum (0, 0) < coord_sum (16777216, 0))%Z ∧
  (coord_sum (0, 0) < coord_sum (0, 1))%Z ∧
  (coord_sum (16777216, 0) < coord_sum (16777216, 1))%Z ∧
  (coord_sum (0, 1) < coord_sum (16777216, 1))%Z ∧
  (coord_diff (0, 1) < coord_diff (16777216, 0))%Z ∧
  sum32 (16777216, 1)%Z = sum32 (16777216, 0)%Z ∧
  order_corners [(0, 0); (16777216, 0); (16777216, 1); (0, 1)]%Z =
    Ok [(0, 0); (16777216, 1); (16777216, 0); (0, 1)]%Z ∧
  order_corners [(0, 0); (16777216, 0); (16777216, 1); (0, 1)]%Z ≠
    Ok [(0, 0); (16777216, 0); (16777216, 1); (0, 1)]%Z.
Proof. repeat split; by vm_compute. Qed.

(** C6, as amended.  Under the conditions of C4 as amended (coordinates of
    magnitude at most 2^23, one point strictly least in x+y, one strictly
    greatest, the two others different in x−y), [order_corners] returns the
    same quadrilateral for every permutation of the four points. *)
Theorem order_corners_permutation_invariant (corners corners' : list point)
    (tl tr br bl : point) :
  corners ≡ₚ [tl; tr; br; bl] →
  Forall in_exact_range corners →
  (coord_sum tl < coord_sum tr)%Z → (coord_sum tl < coord_sum bl)%Z →
  (coord_sum tr < coord_sum br)%Z → (coord_sum bl < coord_sum br)%Z →
  (coord_diff bl < coord_diff tr)%Z →
  corners' ≡ₚ corners →
  order_corners corners' = order_corners corners.
Proof.
  intros Hperm Hrange ????? Hperm'.
  rewrite (order_corners_canonical corners tl tr br bl) by done.
  apply order_corners_canonical; try done; by rewrite Hperm'.
Qed.

Lemma order_corners_permutation_invariant_witness :
  order_corners [(100, 8); (-4, 97); (90, 110); (5, 3)]%Z =
  order_corners [(90, 110); (5, 3); (100, 8); (-4, 97)]%Z.
Proof.
  apply (order_corners_permutation_invariant _ _ (5, 3) (100, 8) (90, 110) (-4, 97))%Z;
    unfold coord_sum, coord_diff;
    simpl;
    first [lia | exact_range | apply (bool_decide_unpack _); by vm_compute].
Defined.

(** C6, as stated, fails: the four corners of a board turned by 45 degrees
    are pairwise distinct, yet listing them from a different starting
    corner changes the result.  The bound on the coordinates is needed as
    well: the four points of the second input meet the conditions of C4 in
    exact arithmetic, two of their float32 sums tie, and swapping these
    two points changes the result. *)
Lemma order_corners_reordering_counterexample :
  NoDup [(1, 0); (2, 1); (1, 2); (0, 1)]%Z ∧
  [(0, 1); (1, 0); (2, 1); (1, 2)]%Z ≡ₚ [(1, 0); (2, 1); (1, 2); (0, 1)]%Z ∧
  order_corners [(1, 0); (2, 1); (1, 2); (0, 1)]%Z =
    Ok [(1, 0); (0, 1); (2, 1); (1, 2)]%Z ∧
  order_corners [(0, 1); (1, 0); (2, 1); (1, 2)]%Z =
    Ok [(0, 1); (1, 0); (2, 1); (1, 2)]%Z ∧
  order_corners [(0, 1); (1, 0); (2, 1); (1, 2)]%Z ≠
  order_corners [(1, 0); (2, 1); (1, 2); (0, 1)]%Z ∧
  NoDup [(0, 0); (16777216, 0); (16777216, 1); (0, 1)]%Z ∧
  [(0, 0); (16777216, 1); (16777216, 0); (0, 1)]%Z ≡ₚ
    [(0, 0); (16777216, 0); (16777216, 1); (0, 1)]%Z ∧
  order_corners [(0, 0); (16777216, 0); (16777216, 1); (0, 1)]%Z =
    Ok [(0, 0); (16777216, 1); (16777216, 0); (0, 1)]%Z ∧
  order_corners [(0, 0); (16777216, 1); (16777216, 0); (0, 1)]%Z =
    Ok [(0, 0); (16777216, 0); (16777216, 1); (0, 1)]%Z.
Proof.
  split; [apply (bool_decide_unpack _); by vm_compute|].
  split; [apply (bool_decide_unpack _); by vm_compute|].
  split; [by vm_compute|]. split; [by vm_compute|].
  split; [by vm_compute|].
  split; [apply (bool_decide_unpack _); by vm_compute|].
  split; [apply (bool_decide_unpack _); by vm_compute|].
  split; by vm_compute.
Qed.

(** C5, as amended.  For every four points with coordinates of magnitude at
    most 2^23, index 0 of the output is the first point of the input with
    the least x+y and index 2 the first with the greatest x+y.  When these
    are two different points and the two remaining points tie in x−y, the
    later of the two in input order is placed at index 1 (top-right) and
    the earlier at index 3 (bottom-left). *)
Theorem order_corners_tie_break (p0 p1 p2 p3 : point) :
  Forall in_exact_range [p0; p1; p2; p3] →
  ∃ tl_idx br_idx out,
    argmin (coord_sum <$> [p0; p1; p2; p3]) = Ok tl_idx ∧
    argmax (coord_sum <$> [p0; p1; p2; p3]) = Ok br_idx ∧
    order_corners [p0; p1; p2; p3] = Ok out ∧
    first_min (coord_sum <$> [p0; p1; p2; p3]) tl_idx ∧
    first_max (coord_sum <$> [p0; p1; p2; p3]) br_idx ∧
    is_Some (out !! 0%nat) ∧ out !! 0%nat = [p0; p1; p2; p3] !! tl_idx ∧
    is_Some (out !! 2%nat) ∧ out !! 2%nat = [p0; p1; p2; p3] !! br_idx ∧
    (tl_idx ≠ br_idx →
     ∀ (a b : nat) (pa pb : point),
       (a < b)%nat → a ≠ tl_idx → a ≠ br_idx → b ≠ tl_idx → b ≠ br_idx →
       [p0; p1; p2; p3] !! a = Some pa → [p0; p1; p2; p3] !! b = Some pb →
       coord_diff pa = coord_diff pb →
       out !! 1%nat = Some pb ∧ out !! 3%nat = Some pa).
Proof.
  intros Hrange.
  destruct (order_corners_rows p0 p1 p2 p3)
    as (i & k & a & b & ptl & pbr & pa & pb & Hargmin & Hargmax & Hmin & Hmax &
        Hi & Hk & Ha & Hb & Hab & Hai & Hak & Hbi & Hbk & Hcover & Hout).
  rewrite (sum32_fmap_exact _ Hrange) in Hargmin, Hargmax, Hmin, Hmax.
  exists i, k. eexists. split; [done|]. split; [done|]. split; [exact Hout|].
  split; [done|]. split; [done|].
  split; [by destruct (_ <? _)%Z|]. split; [by destruct (_ <? _)%Z|].
  split; [by destruct (_ <? _)%Z|]. split; [by destruct (_ <? _)%Z|].
  intros Hne a' b' pa' pb' Hab' ???? Ha' Hb' Htie.
  assert (a' = a ∧ b' = b) as [-> ->].
  { pose proof (Hcover Hne a' ltac:(by eapply (lookup_lt_Some [p0; p1; p2; p3]))) as Hina.
    pose proof (Hcover Hne b' ltac:(by eapply (lookup_lt_Some [p0; p1; p2; p3]))) as Hinb.
    rewrite !elem_of_cons, elem_of_nil in Hina, Hinb. lia. }
  assert (pa' = pa ∧ pb' = pb) as [-> ->] by (split; congruence).
  assert (diff32 pa = diff32 pb) as Htie32
    by (unfold diff32, f32_sub; unfold coord_diff in Htie; by rewrite Htie).
  by rewrite (proj2 (Z.ltb_ge _ _)) by lia.
Qed.

Lemma order_corners_tie_break_witness :
  ∃ out, order_corners [(1, 0); (2, 1); (1, 2); (0, 1)]%Z = Ok out ∧
         out !! 1%nat = Some (0, 1)%Z ∧ out !! 3%nat = Some (1, 2)%Z.
Proof.
  destruct (order_corners_tie_break (1, 0) (2, 1) (1, 2) (0, 1))%Z
    as (i & k & out & Hi & Hk & Hout & _ & _ & _ & _ & _ & _ & Htie);
    [exact_range|].
  exists out. split; [exact Hout|].
  vm_compute in Hi, Hk. injection Hi as <-. injection Hk as <-.
  apply (Htie ltac:(done) 2%nat 3%nat); first [lia | reflexivity].
Defined.

(** C5, as stated, fails on the tie in x−y: of the two remaining points of
    the first input, (1,2) comes first and (0,1) second, both with
    x−y = −1, and index 1 of the output holds the second.  The bound on the
    coordinates is needed as well: in the second input the points
    (16777216,1) and (1,16777216) tie for the greatest x+y, and index 2 of
    the output holds neither, but (16777216,0), which comes before them and
    has the same float32 sum. *)
Lemma order_corners_diff_tie_counterexample :
  argmin (coord_sum <$> [(1, 0); (2, 1); (1, 2); (0, 1)]%Z) = Ok 0%nat ∧
  argmax (coord_sum <$> [(1, 0); (2, 1); (1, 2); (0, 1)]%Z) = Ok 1%nat ∧
  coord_diff (1, 2)%Z = coord_diff (0, 1)%Z ∧
  (∃ out, order_corners [(1, 0); (2, 1); (1, 2); (0, 1)]%Z = Ok out ∧
          out !! 1%nat = Some (0, 1)%Z ∧ out !! 1%nat ≠ Some (1, 2)%Z) ∧
  as_float32 [(0, 0); (16777216, 0); (16777216, 1); (1, 16777216)]%Z =
    [(0, 0); (16777216, 0); (16777216, 1); (1, 16777216)]%Z ∧
  argmax (coord_sum <$>
            [(0, 0); (16777216, 0); (16777216, 1); (1, 16777216)]%Z) =
    Ok 2%nat ∧
  ∃ out, order_corners
           [(0, 0); (16777216, 0); (16777216, 1); (1, 16777216)]%Z = Ok out ∧
         out !! 2%nat = Some (16777216, 0)%Z ∧
         out !! 2%nat ≠ Some (16777216, 1)%Z.
Proof.
  split; [by vm_compute|]. split; [by vm_compute|]. split; [by vm_compute|].
  split.
  { eexists. split; [by vm_compute|]. split; [done|]. by vm_compute. }
  split; [by vm_compute|]. split; [by vm_compute|].
  eexists. split; [by vm_compute|]. split; [done|]. by vm_compute.
Qed.

(** ** The grid *)

(** After clamping, truncation towards zero and the floor agree. *)
Lemma clamp_int_floor (x : Q) : clamp07 (int_of_Q x) = clamp07 (Qfloor x).
Proof.
  unfold clamp07, int_of_Q. destruct x as [n d]. simpl.
  destruct (Z.le_gt_cases 0 n) as [Hn|Hn].
  - by rewrite Z.quot_div_nonneg by lia.
  - assert (n ÷ Z.pos d ≤ 0)%Z.
    { replace n with (- - n)%Z by lia. rewrite Z.quot_opp_l by lia.
      pose proof (Z.quot_pos (- n) (Z.pos d)). lia. }
    assert (n / Z.pos d < 0)%Z by (apply Z.div_lt_upper_bound; lia).
    lia.
Qed.

Lemma clamp07_range (x : Z) : (0 ≤ clamp07 x ≤ 7)%Z.
Proof. unfold clamp07. lia. Qed.

Lemma grid_square_clamped (wx wy : Q) :
  ∃ file_char,
    FILES !! Z.to_nat (clamp07 (Qfloor (wx / 80))) = Some file_char ∧
    grid_square wx wy =
      Ok (file_char +:+ str (8 - clamp07 (Qfloor (wy / 80)))) ∧
    file_char +:+ str (8 - clamp07 (Qfloor (wy / 80))) ∈ SQUARES.
Proof.
  unfold grid_square.
  change (Z.min (Z.max (int_of_Q ?x) 0) 7) with (clamp07 (int_of_Q x)).
  rewrite !clamp_int_floor.
  pose proof (clamp07_range (Qfloor (wx / 80))) as Hcol.
  pose proof (clamp07_range (Qfloor (wy / 80))) as Hrow.
  set (col := clamp07 (Qfloor (wx / 80))) in *.
  set (row := clamp07 (Qfloor (wy / 80))) in *.
  assert (col = 0 ∨ col = 1 ∨ col = 2 ∨ col = 3 ∨
          col = 4 ∨ col = 5 ∨ col = 6 ∨ col = 7)%Z as Hc by lia.
  assert (row = 0 ∨ row = 1 ∨ row = 2 ∨ row = 3 ∨
          row = 4 ∨ row = 5 ∨ row = 6 ∨ row = 7)%Z as Hr by lia.
  clearbody col row.
  repeat destruct Hc as [->|Hc]; try subst col;
    (eexists; split; [reflexivity|]; split; [reflexivity|]);
    repeat destruct Hr as [->|Hr]; try subst row;
    apply (bool_decide_unpack _); by vm_compute.
Qed.

Lemma grid_square_total (wx wy : Q) :
  ∃ sq, grid_square wx wy = Ok sq ∧ sq ∈ SQUARES.
Proof. destruct (grid_square_clamped wx wy) as (f & _ & ? & ?). eauto. Qed.

(** ** [map_pieces_to_squares] *)

Section SquareMapperFacts.

Variable perspectiveTransform : Matrix → Q * Q → Q * Q.
Variable board_bbox : Z * Z * Z * Z.
Variable warp_matrix : Matrix.

Local Abbreviation square_of :=
  (λ det, detection_square perspectiveTransform det board_bbox warp_matrix).

Lemma detection_square_total (det : Detection) :
  ∃ sq, square_of det = Ok sq ∧ sq ∈ SQUARES.
Proof.
  unfold detection_square.
  destruct (bbox det) as [[[x1 y1] x2] y2], board_bbox as [[[bx1 by1] ?] ?].
  destruct (perspectiveTransform _ _) as [wx wy]. apply grid_square_total.
Qed.

(** The confidence pass of the pipeline computes the same square. *)
Lemma pipeline_square_detection_square (det : Detection) :
  pipeline_square perspectiveTransform det board_bbox warp_matrix =
  detection_square perspectiveTransform det board_bbox warp_matrix.
Proof.
  unfold pipeline_square, detection_square, grid_square.
  destruct (bbox det) as [[[x1 y1] x2] y2], board_bbox as [[[bx1 by1] ?] ?].
  by destruct (perspectiveTransform _ _) as [wx wy].
Qed.

Lemma Qgtb_true (x y : Q) : Qgtb x y = true ↔ (y < x)%Q.
Proof.
  unfold Qgtb. rewrite negb_true_iff, <- not_true_iff_false, Qle_bool_iff.
  split; [apply Qnot_le_lt | apply Qlt_not_le].
Qed.

Lemma Qgtb_false (x y : Q) : Qgtb x y = false ↔ (x <= y)%Q.
Proof. unfold Qgtb. by rewrite negb_false_iff, Qle_bool_iff. Qed.

Lemma wins_app_other dets sq i d0 d :
  wins square_of dets sq i d0 → square_of d ≠ Ok sq →
  wins square_of (dets ++ [d]) sq i d0.
Proof.
  intros (Hi & Hsq & Hbest) Hd. split; [|split; [done|]].
  - by apply lookup_app_l_Some.
  - intros j d' Hj Hd'.
    apply lookup_app_Some in Hj as [Hj|[_ Hj]]; [by eapply Hbest|].
    apply list_lookup_singleton_Some in Hj as [_ <-]. done.
Qed.

Lemma wins_app_keep dets sq i d0 d :
  wins square_of dets sq i d0 → (confidence d <= confidence d0)%Q →
  wins square_of (dets ++ [d]) sq i d0.
Proof.
  intros (Hi & Hsq & Hbest) Hd. split; [|split; [done|]].
  - by apply lookup_app_l_Some.
  - intros j d' Hj Hd'.
    apply lookup_app_Some in Hj as [Hj|[Hlen Hj]]; [by eapply Hbest|].
    apply list_lookup_singleton_Some in Hj as [_ <-].
    split; [done|]. apply lookup_lt_Some in Hi. lia.
Qed.

Lemma wins_app_new dets sq d :
  square_of d = Ok sq →
  (∀ d', d' ∈ dets → square_of d' = Ok sq →
         (confidence d' < confidence d)%Q) →
  wins square_of (dets ++ [d]) sq (List.length dets) d.
Proof.
  intros Hsq Hless. split; [|split; [done|]].
  - by rewrite lookup_app_r, Nat.sub_diag.
  - intros j d' Hj Hd'.
    apply lookup_app_Some in Hj as [Hj|[Hlen Hj]].
    + apply list_elem_of_lookup_2 in Hj.
      split; [apply Qlt_le_weak|]; auto.
    + apply list_lookup_singleton_Some in Hj as [? <-].
      split; [apply Qle_refl | lia].
Qed.

Lemma place_step_inv dets square_map square_conf d :
  place_inv square_of dets square_map square_conf →
  ∃ square_map' square_conf',
    place_step perspectiveTransform board_bbox warp_matrix
      (square_map, square_conf) d = Ok (square_map', square_conf') ∧
    place_inv square_of (dets ++ [d]) square_map' square_conf'.
Proof.
  intros Hinv. unfold place_step.
  destruct (detection_square_total d) as (sq & Hsq & _).
  rewrite Hsq, bind_Ok. unfold dict_contains, dict_getitem.
  pose proof (Hinv sq) as Hcur.
  assert (∀ sq', sq' ≠ sq →
            match square_map !! sq', square_conf !! sq' with
            | Some label, Some c =>
                ∃ i d0, wins square_of (dets ++ [d]) sq' i d0 ∧
                        label = class_name d0 ∧ c = confidence d0
            | None, None => ∀ d0, d0 ∈ dets ++ [d] → square_of d0 ≠ Ok sq'
            | _, _ => False
            end) as Hother.
  { intros sq' Hne. specialize (Hinv sq').
    destruct (square_map !! sq'), (square_conf !! sq'); try done.
    - destruct Hinv as (i & d0 & Hwins & ? & ?). exists i, d0.
      split; [|done]. apply wins_app_other; [done|]. congruence.
    - intros d0 [Hd0|Hd0]%elem_of_app; [by apply Hinv|].
      apply list_elem_of_singleton in Hd0 as ->. congruence. }
  destruct (square_map !! sq) as [label|] eqn:Hmap,
    (square_conf !! sq) as [c|] eqn:Hconf; try done; simpl.
  - destruct Hcur as (i & d0 & Hwins & -> & ->).
    destruct (Qgtb (confidence d) (confidence d0)) eqn:Hgt; simpl.
    + apply Qgtb_true in Hgt. do 2 eexists. split; [reflexivity|].
      intros sq'. destruct (decide (sq' = sq)) as [->|Hne].
      * rewrite !lookup_insert_eq. exists (List.length dets), d.
        split; [|done]. apply wins_app_new; [done|].
        intros d' [j Hj]%list_elem_of_lookup Hd'.
        destruct Hwins as (_ & _ & Hbest).
        eapply Qle_lt_trans; [by eapply Hbest | done].
      * rewrite !lookup_insert_ne by done. by apply Hother.
    + apply Qgtb_false in Hgt. do 2 eexists. split; [reflexivity|].
      intros sq'. destruct (decide (sq' = sq)) as [->|Hne].
      * rewrite Hmap, Hconf. exists i, d0.
        split; [|done]. by apply wins_app_keep.
      * by apply Hother.
  - do 2 eexists. split; [reflexivity|].
    intros sq'. destruct (decide (sq' = sq)) as [->|Hne].
    + rewrite !lookup_insert_eq. exists (List.length dets), d.
      split; [|done]. apply wins_app_new; [done|].
      intros d' Hd' Hsq'. by destruct (Hcur d' Hd').
    + rewrite !lookup_insert_ne by done. by apply Hother.
Qed.

(** The mapping loop never raises, and ends in a state that satisfies the
    invariant for the whole list. *)
Lemma place_loop_inv (dets : list Detection) :
  ∃ square_map square_conf,
    for_each dets (∅, ∅)
      (place_step perspectiveTransform board_bbox warp_matrix) =
      Ok (square_map, square_conf) ∧
    place_inv square_of dets square_map square_conf.
Proof.
  induction dets as [|d dets IH] using rev_ind.
  - exists ∅, ∅. split; [done|]. intros sq. rewrite !lookup_empty.
    intros d Hd. by apply elem_of_nil in Hd.
  - destruct IH as (sm & sc & Hrun & Hinv).
    destruct (place_step_inv dets sm sc d Hinv) as (sm' & sc' & Hstep & Hinv').
    exists sm', sc'. split; [|done].
    rewrite for_each_app, Hrun, bind_Ok. cbn [for_each]. by rewrite Hstep.
Qed.

Lemma map_pieces_to_squares_inv (dets : list Detection) :
  ∃ square_map square_conf,
    map_pieces_to_squares perspectiveTransform dets board_bbox warp_matrix =
      Ok square_map ∧
    place_inv square_of dets square_map square_conf.
Proof.
  destruct (place_loop_inv dets) as (sm & sc & Hrun & Hinv).
  exists sm, sc. split; [|done].
  unfold map_pieces_to_squares. by rewrite Hrun.
Qed.

End SquareMapperFacts.

(** On finite coordinates the two readings of the grid block agree. *)
Lemma grid_square_float_finite (wx wy : Q) :
  grid_square_float (Finite wx) (Finite wy) = grid_square wx wy.
Proof. reflexivity. Qed.

(** C7, as amended.  On finite coordinates the grid mapping is total: the
    column is clamp(floor(wx/80), 0, 7), the row clamp(floor(wy/80), 0, 7),
    the square is the file of the column followed by the rank 8 − row, one
    of the 64 squares.  (0,0) lands on a8, (639,639) on h1, (320,320) on
    e4.  With finite warped centroids [map_pieces_to_squares] never raises,
    whatever the detections; its keys are squares of the board; on the
    empty list it returns the empty map. *)
Theorem grid_square_total_clamped :
  (∀ wx wy : Q,
     ∃ file_char,
       FILES !! Z.to_nat (clamp07 (Qfloor (wx / 80))) = Some file_char ∧
       grid_square_float (Finite wx) (Finite wy) =
         Ok (file_char +:+ str (8 - clamp07 (Qfloor (wy / 80)))) ∧
       grid_square wx wy = grid_square_float (Finite wx) (Finite wy) ∧
       file_char +:+ str (8 - clamp07 (Qfloor (wy / 80))) ∈ SQUARES) ∧
  NoDup SQUARES ∧ List.length SQUARES = 64%nat ∧
  grid_square_float (Finite 0) (Finite 0) = Ok "a8" ∧
  grid_square_float (Finite 639) (Finite 639) = Ok "h1" ∧
  grid_square_float (Finite 320) (Finite 320) = Ok "e4" ∧
  (∀ (perspectiveTransform : Matrix → Q * Q → Q * Q)
     dets board_bbox warp_matrix,
     ∃ square_map,
       map_pieces_to_squares perspectiveTransform dets board_bbox warp_matrix =
         Ok square_map ∧
       map_Forall (λ sq _, sq ∈ SQUARES) square_map) ∧
  (∀ (perspectiveTransform : Matrix → Q * Q → Q * Q) board_bbox warp_matrix,
     map_pieces_to_squares perspectiveTransform [] board_bbox warp_matrix =
       Ok ∅).
Proof.
  split.
  { intros wx wy. rewrite grid_square_float_finite.
    destruct (grid_square_clamped wx wy) as (f & ? & ? & ?). by exists f. }
  split; [apply SQUARES_NoDup|].
  do 4 (split; [by vm_compute|]).
  split; [|done].
  intros warp dets bb M.
  destruct (map_pieces_to_squares_inv warp bb M dets) as (sm & sc & Hrun & Hinv).
  exists sm. split; [done|]. intros sq label Hsq. specialize (Hinv sq).
  rewrite Hsq in Hinv. destruct (sc !! sq); [|done].
  destruct Hinv as (i & d & (_ & Hd & _) & _).
  destruct (detection_square_total warp bb M d) as (sq' & Hd' & Hin).
  congruence.
Qed.

(** C7, as stated, fails on a coordinate that is not finite: [int] raises
    on a NaN and on an infinity before the clamp is reached, and the
    detection lands on no square. *)
Lemma grid_square_nonfinite_counterexample :
  grid_square_float NaN (Finite 320) = Raise ValueError ∧
  grid_square_float (Finite 320) NaN = Raise ValueError ∧
  grid_square_float (Infinity false) (Finite 320) = Raise OverflowError ∧
  grid_square_float (Finite 320) (Infinity true) = Raise OverflowError ∧
  ¬ ∃ sq, grid_square_float NaN (Finite 320) = Ok sq.
Proof. repeat split; try reflexivity. by intros [sq Hsq]. Qed.

(** C1.  [map_pieces_to_squares] never raises.  A square is a key of the
    result exactly when some detection lands on it, and its label is that
    of the detection that wins it: no detection landing on the square has a
    higher confidence, and every earlier one landing there has a strictly
    lower one.  For two detections [a], [b] on one square, processed in
    that order: [b]'s label is kept when [b]'s confidence is strictly
    higher, [a]'s otherwise, ties included. *)
Theorem map_pieces_to_squares_conflicts
    (perspectiveTransform : Matrix → Q * Q → Q * Q)
    (board_bbox : Z * Z * Z * Z) (warp_matrix : Matrix) :
  (∀ dets,
     ∃ square_map,
       map_pieces_to_squares perspectiveTransform dets board_bbox warp_matrix =
         Ok square_map ∧
       ∀ sq,
         match square_map !! sq with
         | Some label =>
             ∃ i d,
               wins (λ det, detection_square perspectiveTransform det
                              board_bbox warp_matrix) dets sq i d ∧
               label = class_name d
         | None =>
             ∀ d, d ∈ dets →
                  detection_square perspectiveTransform d
                    board_bbox warp_matrix ≠ Ok sq
         end) ∧
  (∀ a b sq,
     detection_square perspectiveTransform a board_bbox warp_matrix = Ok sq →
     detection_square perspectiveTransform b board_bbox warp_matrix = Ok sq →
     ∃ square_map,
       map_pieces_to_squares perspectiveTransform [a; b]
         board_bbox warp_matrix = Ok square_map ∧
       ((confidence a < confidence b)%Q →
        square_map !! sq = Some (class_name b)) ∧
       ((confidence b <= confidence a)%Q →
        square_map !! sq = Some (class_name a))).
Proof.
  assert (∀ dets,
     ∃ square_map,
       map_pieces_to_squares perspectiveTransform dets board_bbox warp_matrix =
         Ok square_map ∧
       ∀ sq,
         match square_map !! sq with
         | Some label =>
             ∃ i d,
               wins (λ det, detection_square perspectiveTransform det
                              board_bbox warp_matrix) dets sq i d ∧
               label = class_name d
         | None =>
             ∀ d, d ∈ dets →
                  detection_square perspectiveTransform d
                    board_bbox warp_matrix ≠ Ok sq
         end) as Hgeneral.
  { intros dets.
    destruct (map_pieces_to_squares_inv perspectiveTransform board_bbox
                warp_matrix dets) as (sm & sc & Hrun & Hinv).
    exists sm. split; [done|]. intros sq. specialize (Hinv sq).
    destruct (sm !! sq), (sc !! sq); try done.
    destruct Hinv as (i & d & ? & ? & _). eauto. }
  split; [exact Hgeneral|].
  intros a b sq Ha Hb.
  destruct (Hgeneral [a; b]) as (sm & Hrun & Hinv).
  exists sm. split; [done|]. specialize (Hinv sq).
  destruct (sm !! sq) as [label|].
  - destruct Hinv as (i & d & (Hi & _ & Hbest) & ->).
    destruct i as [|[|i]]; simplify_eq/=.
    + destruct (Hbest 1%nat b eq_refl Hb) as [Hle _].
      split; [|done]. intros Hlt. by destruct (Qlt_not_le _ _ Hlt).
    + destruct (Hbest 0%nat a eq_refl Ha) as [_ Hlt].
      split; [done|]. intros Hle. destruct (Qlt_not_le _ _ (Hlt ltac:(lia))).
      done.
  - destruct (Hinv a); [by left | done].
Qed.

Lemma map_pieces_to_squares_conflicts_witness :
  let M : Matrix := ((1, 0, 0), (0, 1, 0), (0, 0, 1))%Q in
  let board := (0, 0, 640, 640)%Z in
  let a9 := {| class_name := "white_queen";
               bbox := (300, 300, 340, 340)%Q; confidence := (9 # 10)%Q |} in
  let b6 := {| class_name := "black_rook";
               bbox := (310, 310, 330, 330)%Q; confidence := (6 # 10)%Q |} in
  let a7 := {| class_name := "white_queen";
               bbox := (300, 300, 340, 340)%Q; confidence := (7 # 10)%Q |} in
  let b7 := {| class_name := "black_rook";
               bbox := (310, 310, 330, 330)%Q; confidence := (7 # 10)%Q |} in
  (∃ m, map_pieces_to_squares projective_map [a9; b6] board M = Ok m ∧
        m !! "e4" = Some "white_queen") ∧
  (∃ m, map_pieces_to_squares projective_map [b6; a9] board M = Ok m ∧
        m !! "e4" = Some "white_queen") ∧
  (∃ m, map_pieces_to_squares projective_map [a7; b7] board M = Ok m ∧
        m !! "e4" = Some "white_queen").
Proof.
  intros M board a9 b6 a7 b7.
  pose proof (proj2 (map_pieces_to_squares_conflicts projective_map board M))
    as Htwo.
  split; [|split].
  - destruct (Htwo a9 b6 "e4") as (m & Hm & _ & Hkeep);
      [by vm_compute | by vm_compute |].
    exists m. split; [exact Hm|]. apply Hkeep. by vm_compute.
  - destruct (Htwo b6 a9 "e4") as (m & Hm & Hreplace & _);
      [by vm_compute | by vm_compute |].
    exists m. split; [exact Hm|]. apply Hreplace. by vm_compute.
  - destruct (Htwo a7 b7 "e4") as (m & Hm & _ & Hkeep);
      [by vm_compute | by vm_compute |].
    exists m. split; [exact Hm|]. apply Hkeep. by vm_compute.
Defined.

(** ** [full_pipeline] *)

(** [round] leaves a rounded number alone. *)
Lemma round_idempotent (x : Q) (ndigits : nat) :
  round (round x ndigits) ndigits = round x ndigits.
Proof.
  unfold round. set (scale := Z.to_pos (10 ^ Z.of_nat ndigits)).
  set (z := round_half_even (x * inject_Z (Z.pos scale))).
  f_equal. unfold round_half_even. simpl.
  rewrite Pos.mul_1_r, Z.div_mul, Z.mod_mul by done.
  reflexivity.
Qed.

(** The confidences [detect_pieces] returns are rounded to 4 places. *)
Lemma detect_pieces_confidence (results : list Results) (d : Detection) :
  d ∈ detect_pieces results → round (confidence d) 4 = confidence d.
Proof.
  unfold detect_pieces. destruct results as [|r _].
  - intros Hd. by apply elem_of_nil in Hd.
  - intros (b & -> & _)%list_elem_of_fmap.
    destruct (xyxy b) as [[[x1 y1] x2] y2]. apply round_idempotent.
Qed.

Section PipelineFacts.

Variable perspectiveTransform : Matrix → Q * Q → Q * Q.
Variable board_bbox : Z * Z * Z * Z.
Variable warp_matrix : Matrix.

Local Abbreviation square_of :=
  (λ det, detection_square perspectiveTransform det board_bbox warp_matrix).

(** Under the invariant, one step of the confidence pass does to
    [square_confidence] what one step of the mapper does to
    [square_conf]. *)
Lemma confidence_step_place_step dets square_map square_conf d :
  place_inv square_of dets square_map square_conf →
  ∃ square_map' square_conf',
    place_step perspectiveTransform board_bbox warp_matrix
      (square_map, square_conf) d = Ok (square_map', square_conf') ∧
    confidence_step perspectiveTransform board_bbox warp_matrix
      square_conf d = Ok square_conf' ∧
    place_inv square_of (dets ++ [d]) square_map' square_conf'.
Proof.
  intros Hinv.
  destruct (place_step_inv perspectiveTransform board_bbox warp_matrix
              dets square_map square_conf d Hinv)
    as (sm' & sc' & Hstep & Hinv').
  exists sm', sc'. split; [done|]. split; [|done].
  revert Hstep. unfold place_step, confidence_step.
  change (pipeline_square perspectiveTransform d board_bbox warp_matrix)
    with (detection_square perspectiveTransform d board_bbox warp_matrix).
  destruct (detection_square _ _ _ _) as [sq|]; [|done].
  rewrite !bind_Ok. unfold dict_contains, dict_getitem.
  specialize (Hinv sq).
  destruct (square_map !! sq), (square_conf !! sq); try done; simpl.
  - destruct (Qgtb _ _); simpl; congruence.
  - congruence.
Qed.

(** The two loops run in step: the dict the confidence pass ends with is
    the [square_conf] the mapper ends with. *)
Lemma confidence_loop (dets : list Detection) :
  ∃ square_map square_conf,
    for_each dets (∅, ∅)
      (place_step perspectiveTransform board_bbox warp_matrix) =
      Ok (square_map, square_conf) ∧
    for_each dets ∅
      (confidence_step perspectiveTransform board_bbox warp_matrix) =
      Ok square_conf ∧
    place_inv square_of dets square_map square_conf.
Proof.
  induction dets as [|d dets IH] using rev_ind.
  - exists ∅, ∅. split; [done|]. split; [done|].
    intros sq. rewrite !lookup_empty.
    intros d Hd. by apply elem_of_nil in Hd.
  - destruct IH as (sm & sc & Hrun & Hrun' & Hinv).
    destruct (confidence_step_place_step dets sm sc d Hinv)
      as (sm' & sc' & Hstep & Hstep' & Hinv').
    exists sm', sc'. split; [|split; [|done]].
    + rewrite for_each_app, Hrun, bind_Ok. cbn [for_each]. by rewrite Hstep.
    + rewrite for_each_app, Hrun', bind_Ok. cbn [for_each]. by rewrite Hstep'.
Qed.

End PipelineFacts.

(** C3.  The square the confidence pass of [full_pipeline] computes for a
    detection is the square [map_pieces_to_squares] computes for it.
    [full_pipeline] on a detected board never raises; its piece list has
    one entry per key of the occupancy map, each with the label of the map
    and the confidence of the detection that won the square. *)
Theorem pipeline_confidence_of_winner
    (perspectiveTransform : Matrix → Q * Q → Q * Q)
    (board_bbox : Z * Z * Z * Z) (warp_matrix : Matrix)
    (piece_results : list Results) :
  (∀ det,
     pipeline_square perspectiveTransform det board_bbox warp_matrix =
     detection_square perspectiveTransform det board_bbox warp_matrix) ∧
  ∃ square_map result,
    map_pieces_to_squares perspectiveTransform
      (detect_pieces piece_results) board_bbox warp_matrix = Ok square_map ∧
    full_pipeline perspectiveTransform (Some board_bbox) warp_matrix
      piece_results = Ok result ∧
    (∀ sq label,
       square_map !! sq = Some label →
       ∃ e, e ∈ pieces result ∧ square e = sq ∧ piece e = label) ∧
    (∀ e,
       e ∈ pieces result →
       square_map !! square e = Some (piece e) ∧
       ∃ i d,
         wins (λ det, detection_square perspectiveTransform det
                        board_bbox warp_matrix)
              (detect_pieces piece_results) (square e) i d ∧
         piece e = class_name d ∧
         entry_confidence e = confidence d).
Proof.
  split; [apply pipeline_square_detection_square|].
  destruct (confidence_loop perspectiveTransform board_bbox warp_matrix
              (detect_pieces piece_results))
    as (sm & sc & Hrun & Hrun' & Hinv).
  assert (map_pieces_to_squares perspectiveTransform
            (detect_pieces piece_results) board_bbox warp_matrix = Ok sm)
    as Hmap by (unfold map_pieces_to_squares; by rewrite Hrun).
  exists sm. eexists. split; [done|].
  split.
  { unfold full_pipeline.
    rewrite Hmap, bind_Ok, Hrun', bind_Ok, generate_fen_board, bind_Ok,
      validate_fen_generated, bind_Ok.
    reflexivity. }
  cbn [pieces]. split.
  - intros sq label Hsq. eexists. split.
    + apply list_elem_of_fmap. exists (sq, label).
      split; [reflexivity | by apply elem_of_map_to_list].
    + done.
  - intros e ([sq label] & -> & Hsq%elem_of_map_to_list)%list_elem_of_fmap.
    cbn [square piece entry_confidence]. split; [done|].
    specialize (Hinv sq). rewrite Hsq in Hinv.
    destruct (sc !! sq) as [c|] eqn:Hc; [|done].
    destruct Hinv as (i & d & Hwins & -> & ->).
    exists i, d. split; [done|]. split; [done|].
    unfold dict_get. rewrite Hc. simpl.
    apply (detect_pieces_confidence piece_results).
    destruct Hwins as (Hi & _). by eapply list_elem_of_lookup_2.
Qed.

Lemma pipeline_confidence_of_winner_witness :
  let M : Matrix := ((1, 0, 0), (0, 1, 0), (0, 0, 1))%Q in
  let board := (0, 0, 640, 640)%Z in
  let results :=
    [ {| boxes :=
           [ {| cls := 1; xyxy := (300, 300, 340, 340)%Q;
                conf := (612345 # 1000000)%Q |};
             {| cls := 7; xyxy := (310, 310, 330, 330)%Q;
                conf := (912355 # 1000000)%Q |} ];
         names := {[ 1%Z := "white_king"; 7%Z := "black_king" ]} |} ] in
  ∃ square_map result,
    map_pieces_to_squares projective_map (detect_pieces results) board M =
      Ok square_map ∧
    full_pipeline projective_map (Some board) M results = Ok result ∧
    (∀ sq label,
       square_map !! sq = Some label →
       ∃ e, e ∈ pieces result ∧ square e = sq ∧ piece e = label) ∧
    (∀ e,
       e ∈ pieces result →
       square_map !! square e = Some (piece e) ∧
       ∃ i d,
         wins (λ det, detection_square projective_map det board M)
              (detect_pieces results) (square e) i d ∧
         piece e = class_name d ∧
         entry_confidence e = confidence d).
Proof.
  intros M board results.
  exact (proj2 (pipeline_confidence_of_winner projective_map board M results)).
Defined.

(** The same input, run: the two boxes land on e4, the second wins, and the
    response carries its confidence, rounded to four places. *)
Example full_pipeline_sample :
  full_pipeline projective_map (Some (0, 0, 640, 640)%Z)
    ((1, 0, 0), (0, 1, 0), (0, 0, 1))%Q
    [ {| boxes :=
           [ {| cls := 1; xyxy := (300, 300, 340, 340)%Q;
                conf := (612345 # 1000000)%Q |};
             {| cls := 7; xyxy := (310, 310, 330, 330)%Q;
                conf := (912355 # 1000000)%Q |} ];
         names := {[ 1%Z := "white_king"; 7%Z := "black_king" ]} |} ] =
  Ok {| fen := Some "8/8/8/8/4k3/8/8/8 w KQkq - 0 1";
        board_detected := true;
        pieces := [ {| piece := "black_king"; square := "e4";
                       entry_confidence := (9124 # 10000)%Q |} ];
        pipeline_errors :=
          ["Expected exactly 1 white king ('K'), found 0."] |}.
Proof. by vm_compute. Qed.

(** * Further properties *)

(** ** More on [generate_fen] *)

Lemma squares_of_rank_SQUARES (rank_num : Z) (square : string) :
  rank_num ∈ RANKS → square ∈ squares_of_rank rank_num → square ∈ SQUARES.
Proof. intros Hr Hsq. unfold SQUARES. apply list_elem_of_bind. eauto. Qed.

Lemma rank_string_ext (m1 m2 : gmap string string) (rank_num : Z) :
  (∀ square, square ∈ squares_of_rank rank_num →
             fen_char m1 square = fen_char m2 square) →
  rank_string m1 rank_num = rank_string m2 rank_num.
Proof.
  intros Hext. unfold rank_string. do 2 f_equal.
  apply list_eq. intros i. rewrite !list_lookup_fmap.
  destruct (squares_of_rank rank_num !! i) as [square|] eqn:Hi; [|done].
  simpl. f_equal. apply Hext. by eapply list_elem_of_lookup_2.
Qed.

(** X1.  [generate_fen] reads the 64 squares and nothing else: two maps that
    agree on every square give the same string, whatever other keys they
    hold. *)
Theorem generate_fen_reads_squares_only (m1 m2 : gmap string string) :
  (∀ square, square ∈ SQUARES → m1 !! square = m2 !! square) →
  generate_fen m1 = generate_fen m2.
Proof.
  intros Hagree. rewrite !generate_fen_board. do 2 f_equal.
  unfold board_string. f_equal.
  apply list_eq. intros i. rewrite !list_lookup_fmap.
  destruct (RANKS !! i) as [r|] eqn:Hi; [|done]. simpl. f_equal.
  apply rank_string_ext. intros square Hsq. unfold fen_char.
  rewrite Hagree; [done|].
  eapply squares_of_rank_SQUARES; [|done]. by eapply list_elem_of_lookup_2.
Qed.

Lemma generate_fen_reads_squares_only_witness :
  generate_fen {[ "e1" := "white_king" ]} =
  generate_fen {[ "e1" := "white_king"; "e9" := "black_king";
                  "E1" := "white_queen" ]}.
Proof.
  apply generate_fen_reads_squares_only. intros square Hsq.
  unfold SQUARES in Hsq. simpl in Hsq.
  repeat (apply elem_of_cons in Hsq as [->|Hsq]; [by vm_compute|]).
  by apply elem_of_nil in Hsq.
Defined.

(** *** Reading a rank string back *)

Lemma decode_rank_app (s1 s2 : string) :
  decode_rank (s1 +:+ s2) = decode_rank s1 ++ decode_rank s2.
Proof. unfold decode_rank. by rewrite chars_app, bind_app. Qed.

Lemma decode_run_length (n : Z) :
  (1 ≤ n ≤ 8)%Z → decode_rank (str n) = replicate (Z.to_nat n) None.
Proof.
  intros Hn. destruct (str_run_length n Hn) as (c & -> & Hd & Hc & _).
  unfold decode_rank. simpl. unfold decode_char.
  by rewrite Hd, Hc, app_nil_r.
Qed.

Lemma decode_piece_char (ch : string) :
  piece_char ch → decode_rank ch = [Some ch].
Proof.
  intros (c & -> & Hd & _). unfold decode_rank. simpl. unfold decode_char.
  by rewrite Hd.
Qed.

Lemma encode_decode cells :
  cells_ok cells →
  ∀ rank_str empty_count,
    (0 ≤ empty_count)%Z →
    (empty_count + Z.of_nat (List.length cells) ≤ 8)%Z →
    decode_rank (flush (foldl cell_step (rank_str, empty_count) cells)) =
    decode_rank rank_str ++ replicate (Z.to_nat empty_count) None ++ cells.
Proof.
  induction 1 as [|cell cells Hcell _ IH]; intros rs ec Hec Hlen.
  - simpl in *. rewrite app_nil_r.
    destruct (Z.ltb_spec 0 ec) as [Hpos|Hzero].
    + by rewrite decode_rank_app, decode_run_length by lia.
    + replace ec with 0%Z by lia. by rewrite app_nil_r.
  - rewrite length_cons in Hlen. cbn [foldl cell_step].
    destruct cell as [ch|].
    + pose proof (decode_piece_char ch (Hcell ch eq_refl)) as Hch.
      destruct (Z.ltb_spec 0 ec) as [Hpos|Hzero]; rewrite IH by lia.
      * rewrite !decode_rank_app, decode_run_length, Hch by lia.
        simpl. by rewrite <- !app_assoc.
      * replace ec with 0%Z by lia.
        rewrite decode_rank_app, Hch. simpl. by rewrite <- !app_assoc.
    + rewrite IH by lia.
      replace (Z.to_nat (ec + 1)) with (S (Z.to_nat ec)) by lia.
      rewrite replicate_S_end. by rewrite <- !app_assoc.
Qed.

(** Decoding a generated rank string gives the cells of that rank. *)
Lemma rank_string_decode (square_map : gmap string string) (rank_num : Z) :
  decode_rank (rank_string square_map rank_num) =
  fen_char square_map <$> squares_of_rank rank_num.
Proof.
  unfold rank_string.
  by rewrite encode_decode by (try apply cells_of_rank_ok; done).
Qed.

Lemma board_string_fen_char (m1 m2 : gmap string string) :
  board_string m1 = board_string m2 →
  ∀ square, square ∈ SQUARES → fen_char m1 square = fen_char m2 square.
Proof.
  intros Hboard square Hsq.
  apply (f_equal (split "/")) in Hboard. rewrite !board_string_split in Hboard.
  unfold SQUARES in Hsq. apply list_elem_of_bind in Hsq as (r & Hsq & Hr).
  apply list_elem_of_lookup in Hr as [i Hi].
  assert (rank_string m1 r = rank_string m2 r) as Hrank.
  { apply (f_equal (λ l, l !! i)) in Hboard.
    rewrite !list_lookup_fmap, Hi in Hboard. by injection Hboard. }
  apply (f_equal decode_rank) in Hrank. rewrite !rank_string_decode in Hrank.
  apply list_elem_of_lookup in Hsq as [j Hj].
  apply (f_equal (λ l, l !! j)) in Hrank.
  rewrite !list_lookup_fmap, Hj in Hrank. by injection Hrank.
Qed.

Lemma PIECE_TO_FEN_injective (l1 l2 : string) :
  l1 ∈ PIECE_CLASSES → l2 ∈ PIECE_CLASSES →
  dict_get PIECE_TO_FEN l1 "?" = dict_get PIECE_TO_FEN l2 "?" → l1 = l2.
Proof.
  intros H1 H2. unfold PIECE_CLASSES in H1, H2.
  repeat (apply elem_of_cons in H1 as [->|H1];
          [repeat (apply elem_of_cons in H2 as [->|H2];
                   [by vm_compute|]);
           by apply elem_of_nil in H2|]).
  by apply elem_of_nil in H1.
Qed.

(** X2.  On occupancy maps (keys among the 64 squares, labels among the
    twelve), [generate_fen] loses nothing: two maps with the same string
    are the same map. *)
Theorem generate_fen_injective (m1 m2 : gmap string string) :
  map_Forall (λ square label, square ∈ SQUARES ∧ label ∈ PIECE_CLASSES) m1 →
  map_Forall (λ square label, square ∈ SQUARES ∧ label ∈ PIECE_CLASSES) m2 →
  generate_fen m1 = generate_fen m2 →
  m1 = m2.
Proof.
  intros Hm1 Hm2 Hfen. rewrite !generate_fen_board in Hfen.
  injection Hfen as Hfen. apply (f_equal board_field) in Hfen.
  rewrite !generated_fen_field in Hfen.
  pose proof (board_string_fen_char m1 m2 Hfen) as Hchar.
  apply map_eq. intros square.
  destruct (decide (square ∈ SQUARES)) as [Hsq|Hsq].
  - specialize (Hchar square Hsq). unfold fen_char in Hchar.
    destruct (m1 !! square) as [l1|] eqn:H1, (m2 !! square) as [l2|] eqn:H2;
      try done.
    simpl in Hchar. injection Hchar as Hchar. f_equal.
    apply PIECE_TO_FEN_injective; [by apply (Hm1 _ _ H1) |
                                   by apply (Hm2 _ _ H2) | done].
  - destruct (m1 !! square) as [l1|] eqn:H1;
      [by destruct (Hsq (proj1 (Hm1 _ _ H1)))|].
    destruct (m2 !! square) as [l2|] eqn:H2;
      [by destruct (Hsq (proj1 (Hm2 _ _ H2)))|].
    done.
Qed.

Lemma generate_fen_injective_witness :
  ({[ "e1" := "white_king"; "a7" := "black_pawn" ]} : gmap string string) =
  <[ "a7" := "black_pawn" ]> {[ "e1" := "white_king" ]}.
Proof.
  apply generate_fen_injective;
    first [apply (bool_decide_unpack _); by vm_compute | by vm_compute].
Defined.

(** *** Run lengths are maximal *)

Lemma last_digit_cons (a b : ascii) (l : list ascii) :
  last_digit (a :: b :: l) = last_digit (b :: l).
Proof. reflexivity. Qed.

Lemma no_adjacent_digits_app (l1 l2 : list ascii) :
  no_adjacent_digits (l1 ++ l2) =
  no_adjacent_digits l1 && no_adjacent_digits l2 &&
  negb (last_digit l1 && head_digit l2).
Proof.
  induction l1 as [|a [|b l1] IH].
  - simpl. by rewrite andb_true_r.
  - destruct l2 as [|b l2].
    + rewrite app_nil_r. cbn [head_digit].
      by rewrite andb_false_r, !andb_true_r.
    + change (no_adjacent_digits ([a] ++ b :: l2))
        with (negb (isdecimal a && isdecimal b) && no_adjacent_digits (b :: l2)).
      change (no_adjacent_digits [a]) with true.
      change (last_digit [a]) with (isdecimal a).
      change (head_digit (b :: l2)) with (isdecimal b).
      generalize (no_adjacent_digits (b :: l2)).
      by destruct (isdecimal a), (isdecimal b); intros [].
  - change (no_adjacent_digits ((a :: b :: l1) ++ l2))
      with (negb (isdecimal a && isdecimal b) &&
            no_adjacent_digits ((b :: l1) ++ l2)).
    rewrite IH, last_digit_cons.
    change (no_adjacent_digits (a :: b :: l1))
      with (negb (isdecimal a && isdecimal b) && no_adjacent_digits (b :: l1)).
    by rewrite !andb_assoc.
Qed.

Lemma last_digit_app (l1 l2 : list ascii) :
  l2 ≠ [] → last_digit (l1 ++ l2) = last_digit l2.
Proof.
  intros Hne. unfold last_digit.
  destruct l2 as [|c l2] using rev_ind; [done|].
  by rewrite app_assoc, !last_snoc.
Qed.

Lemma open_run_piece (rank_str ch : string) :
  open_run rank_str → piece_char ch → open_run (rank_str +:+ ch).
Proof.
  intros [Hno Hlast] (c & -> & Hc & _). split.
  - rewrite chars_app, no_adjacent_digits_app, Hno, Hlast. done.
  - rewrite chars_app, last_digit_app by done. exact Hc.
Qed.

Lemma open_run_flush (rank_str : string) (n : Z) :
  open_run rank_str → (1 ≤ n ≤ 8)%Z →
  no_adjacent_digits (list_ascii_of_string (rank_str +:+ str n)) = true.
Proof.
  intros [Hno Hlast] Hn. destruct (str_run_length n Hn) as (c & -> & _).
  by rewrite chars_app, no_adjacent_digits_app, Hno, Hlast.
Qed.

Lemma open_run_digit_piece (rank_str ch : string) (n : Z) :
  open_run rank_str → (1 ≤ n ≤ 8)%Z → piece_char ch →
  open_run (rank_str +:+ str n +:+ ch).
Proof.
  intros Hrun Hn (c & -> & Hc & _).
  pose proof (open_run_flush rank_str n Hrun Hn) as Hflush.
  rewrite <- string_app_assoc. split.
  - rewrite chars_app, no_adjacent_digits_app, Hflush. simpl.
    by rewrite Hc, andb_false_r.
  - rewrite chars_app, last_digit_app by done. exact Hc.
Qed.

Lemma encode_no_adjacent_digits cells :
  cells_ok cells →
  ∀ rank_str empty_count,
    (0 ≤ empty_count)%Z →
    (empty_count + Z.of_nat (List.length cells) ≤ 8)%Z →
    open_run rank_str →
    no_adjacent_digits
      (list_ascii_of_string
         (flush (foldl cell_step (rank_str, empty_count) cells))) = true.
Proof.
  induction 1 as [|cell cells Hcell _ IH]; intros rs ec Hec Hlen Hrun.
  - simpl in *. destruct (Z.ltb_spec 0 ec) as [Hpos|Hzero].
    + apply open_run_flush; [done | lia].
    + apply Hrun.
  - rewrite length_cons in Hlen. cbn [foldl cell_step].
    destruct cell as [ch|]; [|apply IH; [lia | lia | done]].
    specialize (Hcell ch eq_refl).
    destruct (Z.ltb_spec 0 ec) as [Hpos|Hzero]; apply IH; try lia.
    + apply open_run_digit_piece; [done | lia | done].
    + by apply open_run_piece.
Qed.

Lemma no_adjacent_digits_join (pieces : list string) :
  Forall (λ p, no_adjacent_digits (list_ascii_of_string p) = true) pieces →
  no_adjacent_digits (list_ascii_of_string (join "/" pieces)) = true.
Proof.
  unfold join. induction 1 as [|p ps Hp Hps IH]; [done|].
  destruct ps as [|q ps]; [done|].
  change (String.concat "/" (p :: q :: ps))
    with (p +:+ String "/" (String.concat "/" (q :: ps))).
  rewrite chars_app, no_adjacent_digits_app, Hp.
  cbn [list_ascii_of_string head_digit].
  change (isdecimal "/") with false. rewrite andb_false_r.
  change (no_adjacent_digits ("/"%char :: ?l))
    with (match l with
          | b :: _ => negb (isdecimal "/" && isdecimal b) && no_adjacent_digits l
          | [] => true
          end).
  destruct (list_ascii_of_string (String.concat "/" (q :: ps))); [done|].
  change (isdecimal "/") with false. simpl in *. by rewrite IH.
Qed.

(** X3.  Empty squares are run-length encoded to the full: in the board
    field [generate_fen] writes, no two digits stand side by side, for any
    map. *)
Theorem generate_fen_runs_maximal (square_map : gmap string string) :
  ∃ fen,
    generate_fen square_map = Ok fen ∧
    no_adjacent_digits (list_ascii_of_string (board_field fen)) = true.
Proof.
  eexists. split; [apply generate_fen_board|].
  rewrite generated_fen_field. apply no_adjacent_digits_join.
  apply Forall_fmap, Forall_forall. intros r _. unfold rank_string.
  apply encode_no_adjacent_digits;
    [apply cells_of_rank_ok | done | done | done].
Qed.

(** *** Unknown labels *)

Lemma invalid_char_errors_cons (c : ascii) (s : string) :
  invalid_char_errors (String c s) =
  (if Ascii.eqb c "/" || bool_decide (c ∈ _VALID_BOARD_CHARS) then []
   else ["Invalid character '" +:+ String c "' in board portion."]) ++
  invalid_char_errors s.
Proof. reflexivity. Qed.

Lemma invalid_char_errors_question (s : string) :
  Forall (λ c, c = "/"%char ∨ c ∈ _VALID_BOARD_CHARS ∨ c = "?"%char)
         (list_ascii_of_string s) →
  invalid_char_errors s =
  replicate (count "?" s) "Invalid character '?' in board portion.".
Proof.
  induction s as [|c s IH]; [done|].
  intros Hall. apply Forall_cons in Hall as [Hc Hall].
  rewrite invalid_char_errors_cons, IH by done. cbn [count].
  destruct Hc as [-> | [Hc | ->]]; [done| |done].
  rewrite (bool_decide_eq_true_2 _ Hc), orb_true_r.
  destruct (Ascii.eqb_spec c "?") as [->|_]; [|done].
  by apply (bool_decide_pack _) in Hc.
Qed.

Lemma PIECE_TO_FEN_get_valid_or_question (label : string) :
  Forall (λ c, c = "/"%char ∨ c ∈ _VALID_BOARD_CHARS ∨ c = "?"%char)
         (list_ascii_of_string (dict_get PIECE_TO_FEN label "?")).
Proof.
  unfold dict_get.
  destruct (PIECE_TO_FEN !! label) as [ch|] eqn:Hch; simpl.
  - apply PIECE_TO_FEN_lookup in Hch.
    repeat (apply elem_of_cons in Hch as [[= -> ->]|Hch];
            [(constructor; [|constructor]); right; left;
             apply (bool_decide_unpack _); by vm_compute|]).
    by apply elem_of_nil in Hch.
  - constructor; [|constructor]. by right; right.
Qed.

Lemma board_string_chars (square_map : gmap string string) :
  Forall (λ c, c = "/"%char ∨ c ∈ _VALID_BOARD_CHARS ∨ c = "?"%char)
         (list_ascii_of_string (board_string square_map)).
Proof.
  apply chars_join; [by left|].
  apply Forall_fmap, Forall_forall. intros r _.
  apply rank_string_chars.
  - intros c Hc. right; left. simpl in Hc.
    repeat (apply elem_of_cons in Hc as [->|Hc];
            [apply (bool_decide_unpack _); by vm_compute|]).
    by apply elem_of_nil in Hc.
  - intros square ch Hch. unfold fen_char in Hch.
    destruct (square_map !! square) as [label|]; [|done].
    injection Hch as <-. apply PIECE_TO_FEN_get_valid_or_question.
Qed.

Lemma fen_char_question (square_map : gmap string string) (square : string) :
  fen_char square_map square = Some "?" ↔
  unknown_label_at square_map square = true.
Proof.
  unfold fen_char, unknown_label_at, dict_get, dict_contains.
  destruct (square_map !! square) as [label|]; simpl; [|done].
  destruct (PIECE_TO_FEN !! label) as [ch|] eqn:Hch; simpl; [|done].
  split; [|done]. intros [= ->]. apply PIECE_TO_FEN_lookup in Hch.
  repeat (apply elem_of_cons in Hch as [[=]|Hch]).
  by apply elem_of_nil in Hch.
Qed.

Lemma invalid_char_errors_filter board_part :
  filter (λ e, is_invalid_char_error e = true) (all_errors board_part) =
  invalid_char_errors board_part.
Proof.
  unfold all_errors. rewrite !filter_app.
  rewrite (filter_drop _ (rank_count_errors _)),
    (filter_keep _ (invalid_char_errors _)),
    (filter_drop _ (rank_sum_errors _)),
    (filter_drop _ (king_errors _)),
    (filter_drop _ (pawn_errors _)).
  - by rewrite !app_nil_r.
  - unfold pawn_errors.
    destruct (count "P" _ <=? 8)%nat, (count "p" _ <=? 8)%nat;
      repeat constructor; done.
  - unfold king_errors.
    destruct (count "K" _ =? 1)%nat, (count "k" _ =? 1)%nat;
      repeat constructor; done.
  - apply Forall_bind_list. intros [i rank].
    destruct (_ =? 8)%Z; repeat constructor; done.
  - apply Forall_bind_list. intros ch.
    destruct (_ || _); repeat constructor.
  - unfold rank_count_errors. destruct (_ =? 8)%nat; repeat constructor; done.
Qed.

(** X4.  A label [generate_fen] has no character for is written '?', and
    [validate_fen] reports each of them: on the generated string, the
    invalid-character violations are one "Invalid character '?'" per
    square that carries an unknown label, and nothing else. *)
Theorem unknown_labels_reported (square_map : gmap string string) :
  ∃ fen v,
    generate_fen square_map = Ok fen ∧
    validate_fen fen = Ok v ∧
    filter (λ e, is_invalid_char_error e = true) (errors v) =
    replicate
      (List.length
         (filter (λ square, unknown_label_at square_map square = true)
                 SQUARES))
      "Invalid character '?' in board portion.".
Proof.
  do 2 eexists. split; [apply generate_fen_board|].
  split; [apply validate_fen_generated|]. simpl errors.
  rewrite generated_fen_field, invalid_char_errors_filter.
  rewrite invalid_char_errors_question by apply board_string_chars.
  f_equal. rewrite board_string_count by done. f_equal.
  apply list_filter_iff. intros square. apply fen_char_question.
Qed.

(** *** What valid means *)





Lemma king_errors_nil board_part :
  king_errors board_part = [] ↔
  count "K" board_part = 1%nat ∧ count "k" board_part = 1%nat.
Proof.
  unfold king_errors.
  destruct (Nat.eqb_spec (count "K" board_part) 1),
    (Nat.eqb_spec (count "k" board_part) 1); simpl; by intuition.
Qed.

Lemma pawn_errors_nil board_part :
  pawn_errors board_part = [] ↔
  (count "P" board_part ≤ 8)%nat ∧ (count "p" board_part ≤ 8)%nat.
Proof.
  unfold pawn_errors.
  destruct (Nat.leb_spec (count "P" board_part) 8),
    (Nat.leb_spec (count "p" board_part) 8); simpl;
    split; first [done | intros [??]; lia | intros; split; lia].
Qed.



(** X6.  [validate_fen] looks at the board field only: whatever follows the
    first space (side to move, castling, en passant, clocks) changes
    neither the verdict nor the violations. *)
Theorem validate_fen_board_field_only (board_part rest : string) :
  contains " " board_part = false →
  validate_fen (board_part +:+ " " +:+ rest) = validate_fen board_part.
Proof.
  intros Hsp. rewrite !validate_fen_run.
  assert (board_field (board_part +:+ " " +:+ rest) = board_part) as ->.
  { unfold board_field. simpl. by rewrite split_app_sep. }
  assert (board_field board_part = board_part) as ->.
  { unfold board_field. by rewrite split_no_sep. }
  done.
Qed.

Lemma validate_fen_board_field_only_witness :
  validate_fen ("4k3/8/8/8/8/8/8/4K3" +:+ " " +:+ "x ?? zz -7 nonsense") =
  validate_fen "4k3/8/8/8/8/8/8/4K3".
Proof. apply validate_fen_board_field_only. reflexivity. Defined.

(** ** More on [order_corners] *)

Lemma order_corners_wrong_length (corners : list point) :
  List.length corners ≠ 4%nat → order_corners corners = Raise ValueError.
Proof.
  intros Hlen. unfold order_corners.
  by destruct (Nat.eqb_spec (List.length corners) 4).
Qed.

Lemma order_corners_four (corners : list point) :
  List.length corners = 4%nat →
  ∃ out, order_corners corners = Ok out ∧ List.length out = 4%nat ∧
         ∀ p, p ∈ out → p ∈ corners.
Proof.
  intros Hlen.
  destruct corners as [|p0 [|p1 [|p2 [|p3 [|]]]]]; try done. clear Hlen.
  destruct (order_corners_rows p0 p1 p2 p3)
    as (i & k & a & b & ptl & pbr & pa & pb & _ & _ & _ & _ &
        Hi & Hk & Ha & Hb & _ & _ & _ & _ & _ & _ & ->).
  apply list_elem_of_lookup_2 in Hi, Hk, Ha, Hb.
  eexists. split; [reflexivity|].
  destruct (_ <? _)%Z; (split; [done|]); intros p Hp;
    repeat (apply elem_of_cons in Hp as [->|Hp]; [done|]);
    by apply elem_of_nil in Hp.
Qed.

(** X7.  [order_corners] raises [ValueError] on anything but 4 points; on 4
    points it returns 4 points, each of them a point of the input. *)
Theorem order_corners_shape (corners : list point) :
  (List.length corners ≠ 4%nat → order_corners corners = Raise ValueError) ∧
  (List.length corners = 4%nat →
   ∃ out, order_corners corners = Ok out ∧ List.length out = 4%nat ∧
          ∀ p, p ∈ out → p ∈ corners).
Proof.
  split; [apply order_corners_wrong_length | apply order_corners_four].
Qed.

Lemma order_corners_shape_witness :
  order_corners [(0, 0); (5, 1); (2, 7)]%Z = Raise ValueError ∧
  ∃ out, order_corners [(0, 9); (9, 9); (0, 0); (9, 0)]%Z = Ok out ∧
         List.length out = 4%nat ∧
         ∀ p, p ∈ out → p ∈ [(0, 9); (9, 9); (0, 0); (9, 0)]%Z.
Proof.
  split.
  - apply (proj1 (order_corners_shape _)). simpl. lia.
  - apply (proj2 (order_corners_shape _)). reflexivity.
Defined.

Lemma first_min_max_same (l : list Z) (i : nat) :
  first_min l i → first_max l i → ∀ j x y, l !! 0%nat = Some x → l !! j = Some y → y = x.
Proof.
  intros (m & Hm & Hle & _) (m' & Hm' & Hge & _) j x y Hx Hy.
  assert (m' = m) as -> by congruence.
  pose proof (Hle _ _ Hx). pose proof (Hge _ _ Hx).
  pose proof (Hle _ _ Hy). pose proof (Hge _ _ Hy). lia.
Qed.

(** X8.  On points with coordinates of magnitude at most 2^23, unless all
    four have the same x+y, the output of [order_corners] is a
    rearrangement of its input: no point is lost or repeated. *)
Theorem order_corners_permutes (p0 p1 p2 p3 : point) :
  Forall in_exact_range [p0; p1; p2; p3] →
  ¬ (coord_sum p1 = coord_sum p0 ∧ coord_sum p2 = coord_sum p0 ∧
     coord_sum p3 = coord_sum p0) →
  ∃ out, order_corners [p0; p1; p2; p3] = Ok out ∧
         out ≡ₚ [p0; p1; p2; p3].
Proof.
  intros Hrange Hsums.
  destruct (order_corners_rows p0 p1 p2 p3)
    as (i & k & a & b & ptl & pbr & pa & pb & _ & _ & Hmin & Hmax &
        Hi & Hk & Ha & Hb & Hab & Hai & Hak & Hbi & Hbk & _ & ->).
  rewrite (sum32_fmap_exact _ Hrange) in Hmin, Hmax.
  assert (i ≠ k) as Hik.
  { intros <-. apply Hsums.
    pose proof (first_min_max_same _ _ Hmin Hmax) as Hsame.
    repeat split.
    - by apply (Hsame 1%nat).
    - by apply (Hsame 2%nat).
    - by apply (Hsame 3%nat). }
  eexists. split; [reflexivity|].
  pose proof (lookup_lt_Some _ _ _ Hi) as Hi4.
  pose proof (lookup_lt_Some _ _ _ Hk) as Hk4.
  pose proof (lookup_lt_Some _ _ _ Ha) as Ha4.
  pose proof (lookup_lt_Some _ _ _ Hb) as Hb4.
  simpl in Hi4, Hk4, Ha4, Hb4.
  destruct i as [|[|[|[|]]]]; try lia; destruct k as [|[|[|[|]]]]; try lia;
    destruct a as [|[|[|[|]]]]; try lia; destruct b as [|[|[|[|]]]]; try lia;
    simplify_eq/=; destruct (_ <? _)%Z;
    apply permutations_Permutation; cbn;
    repeat first [apply list_elem_of_here | apply list_elem_of_further].
Qed.

Lemma order_corners_permutes_witness :
  ∃ out, order_corners [(1, 0); (2, 1); (1, 2); (0, 1)]%Z = Ok out ∧
         out ≡ₚ [(1, 0); (2, 1); (1, 2); (0, 1)]%Z.
Proof.
  apply order_corners_permutes; [exact_range|].
  unfold coord_sum. simpl. lia.
Defined.

(** When all four float32 sums are equal, [np.argmin] and [np.argmax]
    both return index 0. *)
Lemma order_corners_sums_equal32 (p0 p1 p2 p3 : point) :
  sum32 p1 = sum32 p0 → sum32 p2 = sum32 p0 → sum32 p3 = sum32 p0 →
  order_corners [p0; p1; p2; p3] =
  Ok (if (diff32 p2 <? diff32 p1)%Z
      then [p0; p1; p0; p2] else [p0; p2; p0; p1]).
Proof.
  intros H1 H2 H3. unfold order_corners.
  change ((λ p : point, f32_add p.1 p.2) <$> [p0; p1; p2; p3])
    with [sum32 p0; sum32 p1; sum32 p2; sum32 p3].
  rewrite H1, H2, H3. cbn [List.length Nat.eqb negb argmin argmax
                        argmin_from argmax_from].
  rewrite !Z.ltb_irrefl, !bind_Ok.
  match goal with
  | |- context [filter ?P (seq 0 4)] =>
      let r := eval vm_compute in (filter P (seq 0 4)) in
      change (filter P (seq 0 4)) with r
  end.
  cbn -[Z.ltb f32_sub]. unfold diff32.
  by destruct (_ <? _)%Z.
Qed.

(** X9.  When all four points, with coordinates of magnitude at most 2^23,
    have the same x+y (four equal points, or four points on one
    anti-diagonal), the first point is both top-left and bottom-right: it
    is returned twice, the second and third points fill the two other
    places, and the fourth point is dropped. *)
Theorem order_corners_all_sums_equal (p0 p1 p2 p3 : point) :
  Forall in_exact_range [p0; p1; p2; p3] →
  coord_sum p1 = coord_sum p0 → coord_sum p2 = coord_sum p0 →
  coord_sum p3 = coord_sum p0 →
  order_corners [p0; p1; p2; p3] =
  Ok (if (coord_diff p2 <? coord_diff p1)%Z
      then [p0; p1; p0; p2] else [p0; p2; p0; p1]).
Proof.
  rewrite !Forall_cons. intros (R0 & R1 & R2 & R3 & _) H1 H2 H3.
  rewrite <- (diff32_exact p1), <- (diff32_exact p2) by done.
  apply order_corners_sums_equal32; rewrite !sum32_exact by done; done.
Qed.

Lemma order_corners_all_sums_equal_witness :
  order_corners [(3, 0); (2, 1); (1, 2); (0, 3)]%Z =
  Ok [(3, 0); (2, 1); (3, 0); (1, 2)]%Z.
Proof.
  apply (order_corners_all_sums_equal (3, 0) (2, 1) (1, 2) (0, 3))%Z;
    first [exact_range | reflexivity].
Defined.

(** X10.  Under the conditions of C4 as amended, ordering is idempotent:
    the output of [order_corners] is a fixed point of [order_corners]. *)
Theorem order_corners_idempotent (corners : list point) (tl tr br bl : point) :
  corners ≡ₚ [tl; tr; br; bl] →
  Forall in_exact_range corners →
  (coord_sum tl < coord_sum tr)%Z → (coord_sum tl < coord_sum bl)%Z →
  (coord_sum tr < coord_sum br)%Z → (coord_sum bl < coord_sum br)%Z →
  (coord_diff bl < coord_diff tr)%Z →
  ∃ out, order_corners corners = Ok out ∧ order_corners out = Ok out.
Proof.
  intros Hperm Hrange ?????. exists [tl; tr; br; bl].
  split; apply order_corners_canonical; try done. by rewrite <- Hperm.
Qed.

Lemma order_corners_idempotent_witness :
  ∃ out, order_corners [(90, 110); (5, 3); (100, 8); (-4, 97)]%Z = Ok out ∧
         order_corners out = Ok out.
Proof.
  apply (order_corners_idempotent _ (5, 3) (100, 8) (90, 110) (-4, 97))%Z;
    unfold coord_sum, coord_diff;
    simpl;
    first [lia | exact_range | apply (bool_decide_unpack _); by vm_compute].
Defined.

(** ** [perspective_correction]: the source corners *)

(** X11.  The corner selection of [perspective_correction] never raises:
    whatever polygon the contour step found, if any, and whatever the crop
    size, [order_corners] is handed 4 points and returns 4. *)
Theorem source_corners_total (approx : option (list point)) (w h : Z) :
  ∃ out, source_corners approx w h = Ok out ∧ List.length out = 4%nat.
Proof.
  unfold source_corners.
  assert (∀ corners, List.length corners = 4%nat →
            ∃ out, order_corners corners = Ok out ∧ List.length out = 4%nat)
    as Hfour.
  { intros corners Hlen.
    destruct (order_corners_four corners Hlen) as (out & ? & ? & _). eauto. }
  destruct approx as [poly|]; [|by apply Hfour].
  destruct (Nat.eqb_spec (List.length poly) 4);
    apply Hfour; unfold as_float32; by rewrite ?length_fmap.
Qed.

(** X12.  The fallback is already in order: when the contour step gives no
    polygon of 4 vertices, the source corners are the corners of the crop,
    (0,0), (w−1,0), (w−1,h−1), (0,h−1), in that order, for every crop of at
    least one pixel and at most 2^23 pixels each way. *)
Theorem source_corners_fallback (approx : option (list point)) (w h : Z) :
  (1 ≤ w ≤ 2 ^ 23)%Z → (1 ≤ h ≤ 2 ^ 23)%Z →
  (∀ poly, approx = Some poly → List.length poly ≠ 4%nat) →
  source_corners approx w h =
  Ok [(0, 0); (w - 1, 0); (w - 1, h - 1); (0, h - 1)]%Z.
Proof.
  intros Hw Hh Hpoly. unfold source_corners.
  assert (match approx with
          | Some poly => if (List.length poly =? 4)%nat then Some poly else None
          | None => None
          end = None) as ->.
  { destruct approx as [poly|]; [|done].
    by destruct (Nat.eqb_spec (List.length poly) 4); [destruct (Hpoly poly)|]. }
  change (2 ^ 23)%Z with 8388608%Z in *.
  assert (∀ z, (Z.abs z ≤ 16777216)%Z → f32 z = z) as Hexact
    by (intros z Hz; by apply f32_exact).
  rewrite as_float32_exact
    by (repeat first [apply Forall_nil_2 | apply Forall_cons_2 | split];
        change (2 ^ 23)%Z with 8388608%Z; simpl; lia).
  unfold order_corners.
  cbn [List.length Nat.eqb negb fmap list_fmap fst snd].
  unfold f32_add. rewrite !Hexact by lia.
  cbn [argmin argmax argmin_from argmax_from].
  repeat match goal with
         | |- context [(?x <? ?y)%Z] =>
             destruct (Z.ltb_spec x y); try lia
         end.
  all: rewrite !bind_Ok.
  all: match goal with
       | |- context [filter ?P (seq 0 4)] =>
           let r := eval vm_compute in (filter P (seq 0 4)) in
           change (filter P (seq 0 4)) with r
       end.
  all: cbn -[Z.ltb Z.sub Z.add f32].
  all: unfold f32_sub; rewrite !Hexact by lia.
  all: repeat match goal with
              | |- context [(?x <? ?y)%Z] =>
                  destruct (Z.ltb_spec x y); try lia
              end.
  all: cbn -[Z.sub Z.add].
  all: repeat f_equal; lia.
Qed.

Lemma source_corners_fallback_witness :
  source_corners (Some [(3, 4); (50, 6); (40, 60)]%Z) 200 100 =
  Ok [(0, 0); (199, 0); (199, 99); (0, 99)]%Z.
Proof.
  apply source_corners_fallback; [by vm_compute | by vm_compute |].
  intros poly [= <-]. simpl. lia.
Defined.

(** ** More on the grid *)

Lemma Qfloor_div80_ge (wx : Q) (k : Z) :
  (inject_Z (80 * k) <= wx)%Q → (k ≤ Qfloor (wx / 80))%Z.
Proof.
  destruct wx as [a b]. unfold Qle, Qdiv, Qmult, Qinv, inject_Z. simpl.
  intros Hle. apply Z.div_le_lower_bound; [done|].
  rewrite Pos2Z.inj_mul. nia.
Qed.

Lemma Qfloor_div80_lt (wx : Q) (k : Z) :
  (wx < inject_Z (80 * k))%Q → (Qfloor (wx / 80) < k)%Z.
Proof.
  destruct wx as [a b]. unfold Qlt, Qdiv, Qmult, Qinv, inject_Z. simpl.
  intros Hlt. apply Z.div_lt_upper_bound; [done|].
  rewrite Pos2Z.inj_mul. nia.
Qed.

Lemma clamp07_cell (k : Z) (w : Q) :
  (0 ≤ k ≤ 7)%Z →
  (k = 0%Z ∨ (inject_Z (80 * k) <= w)%Q) →
  (k = 7%Z ∨ (w < inject_Z (80 * k + 80))%Q) →
  clamp07 (Qfloor (w / 80)) = k.
Proof.
  intros Hk Hlow Hhigh. unfold clamp07.
  assert (k = 0 ∨ k ≤ Qfloor (w / 80))%Z as Hlow'
    by (destruct Hlow; [by left | right; by apply Qfloor_div80_ge]).
  assert (k = 7 ∨ Qfloor (w / 80) < k + 1)%Z as Hhigh'.
  { destruct Hhigh as [?|Hhigh]; [by left | right].
    apply Qfloor_div80_lt. by replace (80 * (k + 1))%Z with (80 * k + 80)%Z by lia. }
  lia.
Qed.

(** X22.  The board is cut into 80 x 80 cells, left and top edges included:
    a warped point whose x lies in [80·col, 80·col + 80) and whose y lies in
    [80·row, 80·row + 80) lands on file [col], rank 8 − [row].  The outer
    cells have no outer edge: column 0 takes every x below 80, column 7
    every x from 560 on, and likewise for the rows. *)
Theorem grid_square_cells (col row : Z) (wx wy : Q) :
  (0 ≤ col ≤ 7)%Z → (0 ≤ row ≤ 7)%Z →
  (col = 0%Z ∨ (inject_Z (80 * col) <= wx)%Q) →
  (col = 7%Z ∨ (wx < inject_Z (80 * col + 80))%Q) →
  (row = 0%Z ∨ (inject_Z (80 * row) <= wy)%Q) →
  (row = 7%Z ∨ (wy < inject_Z (80 * row + 80))%Q) →
  ∃ file_char,
    FILES !! Z.to_nat col = Some file_char ∧
    grid_square wx wy = Ok (file_char +:+ str (8 - row)).
Proof.
  intros Hcol Hrow Hx1 Hx2 Hy1 Hy2.
  destruct (grid_square_clamped wx wy) as (f & Hf & Hsq & _).
  rewrite (clamp07_cell col wx) in Hf by done.
  rewrite (clamp07_cell row wy) in Hsq by done.
  eauto.
Qed.

Lemma grid_square_cells_witness :
  ∃ file_char,
    FILES !! Z.to_nat 1 = Some file_char ∧
    grid_square 80 (-3) = Ok (file_char +:+ str (8 - 0)).
Proof.
  apply grid_square_cells; first [lia | by left | right; by vm_compute].
Defined.

(** ** More on [map_pieces_to_squares] *)

Section SquareMapperMore.

Variable perspectiveTransform : Matrix → Q * Q → Q * Q.
Variable board_bbox : Z * Z * Z * Z.
Variable warp_matrix : Matrix.

Local Abbreviation square_of :=
  (λ det, detection_square perspectiveTransform det board_bbox warp_matrix).
Local Abbreviation step :=
  (place_step perspectiveTransform board_bbox warp_matrix).

(** One step leaves the map alone or writes the label of the detection at
    its square. *)
Lemma place_step_cases square_map square_conf d square_map' square_conf' :
  step (square_map, square_conf) d = Ok (square_map', square_conf') →
  square_map' = square_map ∨
  ∃ sq, square_map' = <[sq := class_name d]> square_map.
Proof.
  unfold place_step.
  destruct (detection_square _ _ _ _) as [sq|]; [|done].
  rewrite bind_Ok. unfold dict_contains, dict_getitem.
  destruct (square_map !! sq); simpl.
  - destruct (square_conf !! sq); [|done]. simpl.
    destruct (Qgtb _ _); intros [= <- <-]; [right; by exists sq | by left].
  - intros [= <- <-]. right. by exists sq.
Qed.

Lemma place_loop_size (dets : list Detection) :
  ∃ square_map square_conf,
    for_each dets (∅, ∅) step = Ok (square_map, square_conf) ∧
    place_inv square_of dets square_map square_conf ∧
    (size square_map ≤ List.length dets)%nat.
Proof.
  induction dets as [|d dets IH] using rev_ind.
  - exists ∅, ∅. split; [done|]. split; [|by rewrite map_size_empty].
    intros sq. rewrite !lookup_empty. intros d Hd. by apply elem_of_nil in Hd.
  - destruct IH as (sm & sc & Hrun & Hinv & Hsize).
    destruct (place_step_inv perspectiveTransform board_bbox warp_matrix
                dets sm sc d Hinv) as (sm' & sc' & Hstep & Hinv').
    exists sm', sc'. split; [|split; [done|]].
    + rewrite for_each_app, Hrun, bind_Ok. cbn [for_each]. by rewrite Hstep.
    + rewrite length_app. simpl.
      apply place_step_cases in Hstep as [->|(sq & ->)]; [lia|].
      destruct (sm !! sq) eqn:Hsq.
      * rewrite map_size_insert_Some by done. lia.
      * rewrite map_size_insert_None by done. lia.
Qed.

Lemma place_loop_size_separate (dets : list Detection) :
  (∀ i j d d', dets !! i = Some d → dets !! j = Some d' →
               square_of d = square_of d' → i = j) →
  ∃ square_map square_conf,
    for_each dets (∅, ∅) step = Ok (square_map, square_conf) ∧
    place_inv square_of dets square_map square_conf ∧
    size square_map = List.length dets.
Proof.
  induction dets as [|d dets IH] using rev_ind; intros Hsep.
  - exists ∅, ∅. split; [done|]. split; [|by rewrite map_size_empty].
    intros sq. rewrite !lookup_empty. intros d Hd. by apply elem_of_nil in Hd.
  - destruct IH as (sm & sc & Hrun & Hinv & Hsize).
    { intros i j d1 d2 Hi Hj. apply Hsep; by apply lookup_app_l_Some. }
    destruct (place_step_inv perspectiveTransform board_bbox warp_matrix
                dets sm sc d Hinv) as (sm' & sc' & Hstep & Hinv').
    exists sm', sc'. split; [|split; [done|]].
    + rewrite for_each_app, Hrun, bind_Ok. cbn [for_each]. by rewrite Hstep.
    + rewrite length_app. simpl.
      destruct (detection_square_total perspectiveTransform board_bbox
                  warp_matrix d) as (sq & Hsq & _).
      assert (sm !! sq = None) as Hfresh.
      { specialize (Hinv sq). destruct (sm !! sq); [|done].
        destruct (sc !! sq); [|done].
        destruct Hinv as (i & d0 & (Hi & Hd0 & _) & _).
        pose proof (lookup_lt_Some _ _ _ Hi) as Hlt.
        assert (i = List.length dets); [|lia].
        apply (Hsep i (List.length dets) d0 d).
        - by apply lookup_app_l_Some.
        - by rewrite lookup_app_r, Nat.sub_diag.
        - congruence. }
      revert Hstep. unfold place_step. rewrite Hsq, bind_Ok.
      unfold dict_contains. rewrite Hfresh. simpl. intros [= <- <-].
      rewrite map_size_insert_None by done. lia.
Qed.

End SquareMapperMore.

(** X13.  The occupancy map never has more entries than there are
    detections, nor more than 64. *)
Theorem map_pieces_to_squares_size
    (perspectiveTransform : Matrix → Q * Q → Q * Q)
    (dets : list Detection) (board_bbox : Z * Z * Z * Z)
    (warp_matrix : Matrix) :
  ∃ square_map,
    map_pieces_to_squares perspectiveTransform dets board_bbox warp_matrix =
      Ok square_map ∧
    (size square_map ≤ List.length dets)%nat ∧ (size square_map ≤ 64)%nat.
Proof.
  destruct (place_loop_size perspectiveTransform board_bbox warp_matrix dets)
    as (sm & sc & Hrun & Hinv & Hsize).
  exists sm. split; [unfold map_pieces_to_squares; by rewrite Hrun|].
  split; [done|].
  rewrite <- size_dom.
  change 64%nat with (List.length SQUARES).
  rewrite <- (size_list_to_set (C:=gset string) SQUARES) by apply SQUARES_NoDup.
  apply subseteq_size. intros sq [label Hsq]%elem_of_dom.
  apply elem_of_list_to_set. specialize (Hinv sq). rewrite Hsq in Hinv.
  destruct (sc !! sq); [|done].
  destruct Hinv as (i & d & (_ & Hd & _) & _).
  destruct (detection_square_total perspectiveTransform board_bbox
              warp_matrix d) as (sq' & Hd' & Hin).
  congruence.
Qed.

(** X14.  No piece is lost unless two land on one square: when the
    detections land on pairwise different squares, the map has one entry
    per detection, and each detection's label sits on its square. *)
Theorem map_pieces_to_squares_separate
    (perspectiveTransform : Matrix → Q * Q → Q * Q)
    (dets : list Detection) (board_bbox : Z * Z * Z * Z)
    (warp_matrix : Matrix) :
  (∀ i j d d',
     dets !! i = Some d → dets !! j = Some d' →
     detection_square perspectiveTransform d board_bbox warp_matrix =
     detection_square perspectiveTransform d' board_bbox warp_matrix →
     i = j) →
  ∃ square_map,
    map_pieces_to_squares perspectiveTransform dets board_bbox warp_matrix =
      Ok square_map ∧
    size square_map = List.length dets ∧
    ∀ d, d ∈ dets →
         ∃ sq,
           detection_square perspectiveTransform d board_bbox warp_matrix =
             Ok sq ∧
           square_map !! sq = Some (class_name d).
Proof.
  intros Hsep.
  destruct (place_loop_size_separate perspectiveTransform board_bbox
              warp_matrix dets Hsep) as (sm & sc & Hrun & Hinv & Hsize).
  exists sm. split; [unfold map_pieces_to_squares; by rewrite Hrun|].
  split; [done|]. intros d [j Hj]%list_elem_of_lookup.
  destruct (detection_square_total perspectiveTransform board_bbox
              warp_matrix d) as (sq & Hsq & _).
  exists sq. split; [done|]. specialize (Hinv sq).
  destruct (sm !! sq) as [label|], (sc !! sq) as [c|]; try done.
  - destruct Hinv as (i & d0 & (Hi & Hd0 & _) & -> & _).
    assert (i = j) as -> by (apply (Hsep i j d0 d); congruence).
    congruence.
  - destruct (Hinv d); [by eapply list_elem_of_lookup_2 | done].
Qed.

(** X15.  The order of the detections matters only through ties: when any
    two detections that land on one square with equal confidence carry the
    same label, every reordering of the list gives the same map. *)
Theorem map_pieces_to_squares_order
    (perspectiveTransform : Matrix → Q * Q → Q * Q)
    (dets dets' : list Detection) (board_bbox : Z * Z * Z * Z)
    (warp_matrix : Matrix) :
  dets ≡ₚ dets' →
  (∀ d1 d2,
     d1 ∈ dets → d2 ∈ dets →
     detection_square perspectiveTransform d1 board_bbox warp_matrix =
     detection_square perspectiveTransform d2 board_bbox warp_matrix →
     (confidence d1 == confidence d2)%Q →
     class_name d1 = class_name d2) →
  map_pieces_to_squares perspectiveTransform dets board_bbox warp_matrix =
  map_pieces_to_squares perspectiveTransform dets' board_bbox warp_matrix.
Proof.
  intros Hperm Hties.
  destruct (map_pieces_to_squares_inv perspectiveTransform board_bbox
              warp_matrix dets) as (m & sc & -> & Hinv).
  destruct (map_pieces_to_squares_inv perspectiveTransform board_bbox
              warp_matrix dets') as (m' & sc' & -> & Hinv').
  f_equal. apply map_eq. intros sq.
  specialize (Hinv sq). specialize (Hinv' sq).
  destruct (m !! sq) as [label|], (sc !! sq) as [c|]; try done;
    destruct (m' !! sq) as [label'|], (sc' !! sq) as [c'|]; try done.
  - destruct Hinv as (i & d & (Hi & Hd & Hbest) & -> & _).
    destruct Hinv' as (i' & d' & (Hi' & Hd' & Hbest') & -> & _).
    f_equal.
    assert (d ∈ dets) as Hin by (by eapply list_elem_of_lookup_2).
    assert (d' ∈ dets) as Hin'
      by (rewrite Hperm; by eapply list_elem_of_lookup_2).
    apply Hties; [done | done | congruence |].
    apply Qle_antisym.
    + rewrite Hperm in Hin. apply list_elem_of_lookup in Hin as [j Hj].
      by apply (Hbest' j d Hj).
    + apply list_elem_of_lookup in Hin' as [j Hj].
      by apply (Hbest j d' Hj).
  - destruct Hinv as (i & d & (Hi & Hd & _) & _).
    destruct (Hinv' d); [|done].
    rewrite <- Hperm. by eapply list_elem_of_lookup_2.
  - destruct Hinv' as (i & d & (Hi & Hd & _) & _).
    destruct (Hinv d); [|done].
    rewrite Hperm. by eapply list_elem_of_lookup_2.
Qed.

Lemma map_pieces_to_squares_separate_witness :
  let M : Matrix := ((1, 0, 0), (0, 1, 0), (0, 0, 1))%Q in
  let board := (0, 0, 640, 640)%Z in
  let a := {| class_name := "white_queen";
              bbox := (300, 300, 340, 340)%Q; confidence := (9 # 10)%Q |} in
  let b := {| class_name := "black_rook";
              bbox := (0, 0, 40, 40)%Q; confidence := (6 # 10)%Q |} in
  ∃ m, map_pieces_to_squares projective_map [a; b] board M = Ok m ∧
       size m = 2%nat ∧
       ∀ d, d ∈ [a; b] →
            ∃ sq, detection_square projective_map d board M = Ok sq ∧
                  m !! sq = Some (class_name d).
Proof.
  intros M board a b. apply map_pieces_to_squares_separate.
  intros i j d d' Hi Hj Heq.
  destruct i as [|[|i]], j as [|[|j]]; try done;
    injection Hi as <-; injection Hj as <-;
    vm_compute in Heq; discriminate Heq.
Defined.

Lemma map_pieces_to_squares_order_witness :
  let M : Matrix := ((1, 0, 0), (0, 1, 0), (0, 0, 1))%Q in
  let board := (0, 0, 640, 640)%Z in
  let a := {| class_name := "white_queen";
              bbox := (300, 300, 340, 340)%Q; confidence := (9 # 10)%Q |} in
  let b := {| class_name := "black_rook";
              bbox := (310, 310, 330, 330)%Q; confidence := (6 # 10)%Q |} in
  map_pieces_to_squares projective_map [a; b] board M =
  map_pieces_to_squares projective_map [b; a] board M.
Proof.
  intros M board a b. apply map_pieces_to_squares_order.
  - apply perm_swap.
  - intros d1 d2 H1 H2 _ Hconf.
    apply elem_of_cons in H1 as [->|H1%list_elem_of_singleton];
      apply elem_of_cons in H2 as [->|H2%list_elem_of_singleton];
      subst; first [reflexivity | by vm_compute in Hconf].
Defined.

(** ** Rounding *)

Lemma round_half_even_nearest (a : Z) (b : positive) :
  (- Z.pos b ≤ 2 * (round_half_even (a # b) * Z.pos b - a) ≤ Z.pos b)%Z.
Proof.
  unfold round_half_even. simpl.
  pose proof (Z.div_mod a (Z.pos b) ltac:(done)) as Hdiv.
  pose proof (Z.mod_pos_bound a (Z.pos b) ltac:(done)) as Hmod.
  destruct (Z.compare_spec (2 * (a `mod` Z.pos b)) (Z.pos b)) as [Heq|Hlt|Hgt];
    [destruct (Z.even _)|..]; nia.
Qed.

(** [round(x, n)] is within half a unit of the [n]-th decimal place of
    [x]. *)
Lemma round_nearest (x : Q) (ndigits : nat) :
  let half_unit := (1 # 2 * Z.to_pos (10 ^ Z.of_nat ndigits))%Q in
  (x - half_unit <= round x ndigits)%Q ∧ (round x ndigits <= x + half_unit)%Q.
Proof.
  destruct x as [a b]. unfold round.
  set (s := Z.to_pos (10 ^ Z.of_nat ndigits)).
  pose proof (round_half_even_nearest (a * Z.pos s) (b * 1)) as Hnear.
  change ((a # b) * inject_Z (Z.pos s))%Q with (a * Z.pos s # b * 1)%Q.
  set (z := round_half_even (a * Z.pos s # b * 1)) in *.
  rewrite Pos.mul_1_r in Hnear.
  unfold Qle, Qminus, Qplus, Qopp. simpl.
  rewrite !Pos2Z.inj_mul. split; nia.
Qed.

(** ** [detect_pieces] and [detect_board] *)

(** X16.  [detect_pieces] returns one detection per box of the first
    result, in order, and ignores any further result; the confidence it
    reports for a box is within 0.00005 of the model's score. *)
Theorem detect_pieces_scores (r : Results) (rest : list Results) :
  List.length (detect_pieces (r :: rest)) = List.length (boxes r) ∧
  detect_pieces (r :: rest) = detect_pieces [r] ∧
  ∀ i b,
    boxes r !! i = Some b →
    ∃ d, detect_pieces (r :: rest) !! i = Some d ∧
         (conf b - (1 # 20000) <= confidence d)%Q ∧
         (confidence d <= conf b + (1 # 20000))%Q.
Proof.
  unfold detect_pieces. split; [by rewrite length_fmap|]. split; [done|].
  intros i b Hb. rewrite list_lookup_fmap, Hb. simpl.
  destruct (xyxy b) as [[[x1 y1] x2] y2]. eexists. split; [reflexivity|].
  simpl confidence. apply (round_nearest (conf b) 4).
Qed.

Lemma detect_pieces_scores_witness :
  let r := {| boxes := [ {| cls := 1; xyxy := (300, 300, 340, 340)%Q;
                            conf := (612345 # 1000000)%Q |} ];
              names := {[ 1%Z := "white_king" ]} |} in
  ∃ d, detect_pieces [r] !! 0%nat = Some d ∧
       ((612345 # 1000000) - (1 # 20000) <= confidence d)%Q ∧
       (confidence d <= (612345 # 1000000) + (1 # 20000))%Q.
Proof.
  intros r.
  exact (proj2 (proj2 (detect_pieces_scores r [])) 0%nat _ eq_refl).
Defined.





(** ** More on [full_pipeline] *)

Lemma place_inv_keys square_of dets
    (square_map : gmap string string) (square_conf : gmap string Q) :
  place_inv square_of dets square_map square_conf →
  ∀ sq label, square_map !! sq = Some label →
              ∃ d, d ∈ dets ∧ square_of d = Ok sq ∧ label = class_name d.
Proof.
  intros Hinv sq label Hsq. specialize (Hinv sq). rewrite Hsq in Hinv.
  destruct (square_conf !! sq); [|done].
  destruct Hinv as (i & d & (Hi & Hd & _) & -> & _).
  exists d. split; [by eapply list_elem_of_lookup_2 | done].
Qed.

Lemma keys_squares_size (square_map : gmap string string) :
  map_Forall (λ sq _, sq ∈ SQUARES) square_map → (size square_map ≤ 64)%nat.
Proof.
  intros Hkeys. rewrite <- size_dom.
  change 64%nat with (List.length SQUARES).
  rewrite <- (size_list_to_set (C:=gset string) SQUARES) by apply SQUARES_NoDup.
  apply subseteq_size. intros sq [label Hsq]%elem_of_dom.
  apply elem_of_list_to_set. by apply (Hkeys sq label).
Qed.

(** On an occupancy map, the violations of the generated string are empty
    exactly when the kings and pawns are in number. *)
Lemma generated_errors_counts (square_map : gmap string string) :
  map_Forall (λ square _, square ∈ SQUARES) square_map →
  map_Forall (λ _ label, label ∈ PIECE_CLASSES) square_map →
  all_errors (board_string square_map) = [] ↔
  label_count square_map "white_king" = 1%nat ∧
  label_count square_map "black_king" = 1%nat ∧
  (label_count square_map "white_pawn" ≤ 8)%nat ∧
  (label_count square_map "black_pawn" ≤ 8)%nat.
Proof.
  intros Hkeys Hvalid.
  assert (∀ square, is_Some (square_map !! square) → square ∈ SQUARES)
    as Hkeys' by (intros square [label Hsq]; by apply (Hkeys _ _ Hsq)).
  assert (∀ label c,
            (label, String c EmptyString) ∈
              [ ("white_king", "K"); ("black_king", "k");
                ("white_pawn", "P"); ("black_pawn", "p") ] →
            count c (board_string square_map) = label_count square_map label)
    as Hcount by (intros; by apply board_string_label_count).
  unfold all_errors.
  rewrite board_string_valid_chars by done.
  rewrite rank_sum_errors_none by apply generated_ranks_total.
  unfold rank_count_errors. rewrite board_string_split. simpl.
  rewrite app_nil, king_errors_nil, pawn_errors_nil.
  rewrite (Hcount "white_king" "K"%char), (Hcount "black_king" "k"%char),
    (Hcount "white_pawn" "P"%char), (Hcount "black_pawn" "p"%char)
    by (apply (bool_decide_unpack _); by vm_compute).
  tauto.
Qed.

Section PipelineMore.

Variable perspectiveTransform : Matrix → Q * Q → Q * Q.
Variable board_bbox : Z * Z * Z * Z.
Variable warp_matrix : Matrix.
Variable piece_results : list Results.

(** The run of [full_pipeline] on a detected board, step by step. *)
Lemma full_pipeline_run :
  ∃ square_map square_conf,
    map_pieces_to_squares perspectiveTransform
      (detect_pieces piece_results) board_bbox warp_matrix = Ok square_map ∧
    place_inv
      (λ det, detection_square perspectiveTransform det
                board_bbox warp_matrix)
      (detect_pieces piece_results) square_map square_conf ∧
    full_pipeline perspectiveTransform (Some board_bbox) warp_matrix
      piece_results =
    Ok {| fen := Some (board_string square_map +:+ " w KQkq - 0 1");
          board_detected := true;
          pieces :=
            (λ '(sq_name, piece_name),
               {| piece := piece_name; square := sq_name;
                  entry_confidence :=
                    round (dict_get square_conf sq_name 0%Q) 4 |})
              <$> map_to_list square_map;
          pipeline_errors := all_errors (board_string square_map) |}.
Proof.
  destruct (confidence_loop perspectiveTransform board_bbox warp_matrix
              (detect_pieces piece_results))
    as (sm & sc & Hrun & Hrun' & Hinv).
  assert (map_pieces_to_squares perspectiveTransform
            (detect_pieces piece_results) board_bbox warp_matrix = Ok sm)
    as Hmap by (unfold map_pieces_to_squares; by rewrite Hrun).
  exists sm, sc. split; [done|]. split; [done|].
  unfold full_pipeline.
  rewrite Hmap, bind_Ok, Hrun', bind_Ok, generate_fen_board, bind_Ok,
    validate_fen_generated, bind_Ok.
  cbn [valid errors]. rewrite generated_fen_field.
  by destruct (all_errors (board_string sm)).
Qed.

End PipelineMore.

(** X18.  On a detected board [full_pipeline] returns the string
    [generate_fen] gives for the mapped position, and as its errors exactly
    the violations [validate_fen] finds in that string; none of them is a
    rank-count or a rank-sum violation. *)
Theorem full_pipeline_errors
    (perspectiveTransform : Matrix → Q * Q → Q * Q)
    (board_bbox : Z * Z * Z * Z) (warp_matrix : Matrix)
    (piece_results : list Results) :
  ∃ square_map fen_string v result,
    map_pieces_to_squares perspectiveTransform
      (detect_pieces piece_results) board_bbox warp_matrix = Ok square_map ∧
    generate_fen square_map = Ok fen_string ∧
    validate_fen fen_string = Ok v ∧
    full_pipeline perspectiveTransform (Some board_bbox) warp_matrix
      piece_results = Ok result ∧
    board_detected result = true ∧
    fen result = Some fen_string ∧
    pipeline_errors result = errors v ∧
    Forall (λ e, is_rank_count_error e = false ∧ is_rank_sum_error e = false)
           (pipeline_errors result).
Proof.
  destruct (full_pipeline_run perspectiveTransform board_bbox warp_matrix
              piece_results) as (sm & sc & Hmap & _ & Hrun).
  exists sm. do 3 eexists. split; [done|].
  split; [apply generate_fen_board|]. split; [apply validate_fen_generated|].
  split; [exact Hrun|].
  cbn [board_detected Detector.fen pipeline_errors errors].
  split; [done|]. split; [done|].
  rewrite generated_fen_field. split; [done|].
  unfold all_errors.
  assert (rank_count_errors (board_string sm) = []) as ->
    by (unfold rank_count_errors; by rewrite board_string_split).
  rewrite rank_sum_errors_none by apply generated_ranks_total.
  simpl. rewrite !Forall_app.
  auto using invalid_char_errors_kind, king_errors_kind, pawn_errors_kind.
Qed.

(** X19.  When the piece model names its classes by the twelve labels, the
    errors of [full_pipeline] are empty exactly when the mapped position
    has one white king, one black king, and at most 8 pawns of each
    colour. *)
Theorem full_pipeline_clean
    (perspectiveTransform : Matrix → Q * Q → Q * Q)
    (board_bbox : Z * Z * Z * Z) (warp_matrix : Matrix)
    (piece_results : list Results) :
  (∀ d, d ∈ detect_pieces piece_results → class_name d ∈ PIECE_CLASSES) →
  ∃ square_map result,
    map_pieces_to_squares perspectiveTransform
      (detect_pieces piece_results) board_bbox warp_matrix = Ok square_map ∧
    full_pipeline perspectiveTransform (Some board_bbox) warp_matrix
      piece_results = Ok result ∧
    (pipeline_errors result = [] ↔
     label_count square_map "white_king" = 1%nat ∧
     label_count square_map "black_king" = 1%nat ∧
     (label_count square_map "white_pawn" ≤ 8)%nat ∧
     (label_count square_map "black_pawn" ≤ 8)%nat).
Proof.
  intros Hlabels.
  destruct (full_pipeline_run perspectiveTransform board_bbox warp_matrix
              piece_results) as (sm & sc & Hmap & Hinv & Hrun).
  exists sm. eexists. split; [done|]. split; [exact Hrun|].
  cbn [pipeline_errors]. apply generated_errors_counts.
  - intros sq label Hsq.
    destruct (place_inv_keys _ _ _ _ Hinv sq label Hsq) as (d & _ & Hd & _).
    destruct (detection_square_total perspectiveTransform board_bbox
                warp_matrix d) as (sq' & Hd' & Hin).
    congruence.
  - intros sq label Hsq.
    destruct (place_inv_keys _ _ _ _ Hinv sq label Hsq) as (d & Hin & _ & ->).
    by apply Hlabels.
Qed.

(** X20.  The piece list of [full_pipeline] has one entry per square of the
    occupancy map: no square twice, as many entries as the map has keys, at
    most 64. *)
Theorem full_pipeline_pieces
    (perspectiveTransform : Matrix → Q * Q → Q * Q)
    (board_bbox : Z * Z * Z * Z) (warp_matrix : Matrix)
    (piece_results : list Results) :
  ∃ square_map result,
    map_pieces_to_squares perspectiveTransform
      (detect_pieces piece_results) board_bbox warp_matrix = Ok square_map ∧
    full_pipeline perspectiveTransform (Some board_bbox) warp_matrix
      piece_results = Ok result ∧
    NoDup (square <$> pieces result) ∧
    List.length (pieces result) = size square_map ∧
    (List.length (pieces result) ≤ 64)%nat.
Proof.
  destruct (full_pipeline_run perspectiveTransform board_bbox warp_matrix
              piece_results) as (sm & sc & Hmap & Hinv & Hrun).
  exists sm. eexists. split; [done|]. split; [exact Hrun|].
  cbn [pieces].
  assert (List.length
            ((λ '(sq_name, piece_name),
                {| piece := piece_name; square := sq_name;
                   entry_confidence := round (dict_get sc sq_name 0%Q) 4 |})
               <$> map_to_list sm) = size sm) as Hlen
    by (by rewrite length_fmap, length_map_to_list).
  split; [|split; [done|]].
  - rewrite <- list_fmap_compose.
    erewrite list_fmap_ext; [apply (NoDup_fst_map_to_list sm)|].
    by intros i [??] _.
  - rewrite Hlen. apply keys_squares_size. intros sq label Hsq.
    destruct (place_inv_keys _ _ _ _ Hinv sq label Hsq) as (d & _ & Hd & _).
    destruct (detection_square_total perspectiveTransform board_bbox
                warp_matrix d) as (sq' & Hd' & Hin).
    congruence.
Qed.

Lemma full_pipeline_clean_witness :
  let M : Matrix := ((1, 0, 0), (0, 1, 0), (0, 0, 1))%Q in
  let board := (0, 0, 640, 640)%Z in
  let results :=
    [ {| boxes :=
           [ {| cls := 1; xyxy := (300, 300, 340, 340)%Q;
                conf := (612345 # 1000000)%Q |};
             {| cls := 7; xyxy := (10, 10, 30, 30)%Q;
                conf := (912355 # 1000000)%Q |} ];
         names := {[ 1%Z := "white_king"; 7%Z := "black_king" ]} |} ] in
  ∃ square_map result,
    map_pieces_to_squares projective_map (detect_pieces results) board M =
      Ok square_map ∧
    full_pipeline projective_map (Some board) M results = Ok result ∧
    (pipeline_errors result = [] ↔
     label_count square_map "white_king" = 1%nat ∧
     label_count square_map "black_king" = 1%nat ∧
     (label_count square_map "white_pawn" ≤ 8)%nat ∧
     (label_count square_map "black_pawn" ≤ 8)%nat).
Proof.
  intros M board results. apply full_pipeline_clean.
  intros d Hd. unfold results, detect_pieces in Hd. simpl in Hd.
  apply elem_of_cons in Hd as [->|Hd];
    [apply (bool_decide_unpack _); by vm_compute|].
  apply elem_of_cons in Hd as [->|Hd];
    [apply (bool_decide_unpack _); by vm_compute|].
  by apply elem_of_nil in Hd.
Defined.

(** ** [base64_to_image]: the data-URI prefix *)

Lemma split_once_app_sep (sep : ascii) (s1 s2 : string) :
  contains sep s1 = false →
  split_once sep (s1 +:+ String sep s2) = [s1; s2].
Proof.
  induction s1 as [|a s1 IH]; simpl.
  - by rewrite Ascii.eqb_refl.
  - destruct (Ascii.eqb a sep); [done|]. intros H. by rewrite IH.
Qed.

Lemma split_once_contains (sep : ascii) (s : string) :
  contains sep s = true →
  ∃ s1 s2, split_once sep s = [s1; s2] ∧ s = s1 +:+ String sep s2 ∧
           contains sep s1 = false.
Proof.
  induction s as [|a s IH]; [done | simpl].
  destruct (Ascii.eqb_spec a sep) as [->|Hne].
  - intros _. by exists EmptyString, s.
  - intros (s1 & s2 & -> & -> & Hs1)%IH. exists (String a s1), s2.
    split; [done|]. split; [done|]. simpl.
    by destruct (Ascii.eqb_spec a sep).
Qed.

Lemma startswith_app (s t p : string) :
  startswith s p = true → startswith (s +:+ t) p = true.
Proof.
  revert s; induction p as [|a p IH]; intros s; [done|].
  destruct s as [|b s]; [done | simpl].
  intros [-> Hp]%andb_true_iff. by rewrite IH.
Qed.

(** X21.  The data-URI step of [base64_to_image] never raises.  A string
    that starts with "data:" and holds a comma is cut after its first
    comma, so that a header without comma, a comma and a payload give back
    the payload; any other string is returned as it is. *)
Theorem strip_data_uri_cuts_header :
  (∀ header payload,
     startswith header "data:" = true → contains "," header = false →
     strip_data_uri (header +:+ "," +:+ payload) = Ok payload) ∧
  (∀ s,
     startswith s "data:" = false ∨ contains "," s = false →
     strip_data_uri s = Ok s) ∧
  (∀ s, ∃ out, strip_data_uri s = Ok out).
Proof.
  split; [|split].
  - intros header payload Hdata Hcomma. unfold strip_data_uri.
    rewrite contains_app, startswith_app by done. simpl.
    rewrite orb_true_r. simpl.
    by rewrite split_once_app_sep.
  - intros s Hs. unfold strip_data_uri.
    destruct Hs as [-> | ->]; [by rewrite andb_false_r | done].
  - intros s. unfold strip_data_uri.
    destruct (contains "," s) eqn:Hcomma; [|by eexists].
    destruct (startswith s "data:"); [|by eexists]. simpl.
    destruct (split_once_contains _ _ Hcomma) as (s1 & s2 & -> & _).
    by eexists.
Qed.

Lemma strip_data_uri_cuts_header_witness :
  strip_data_uri ("data:image/png;base64" +:+ "," +:+ "iVBOR,w0KGgo=") =
    Ok "iVBOR,w0KGgo=" ∧
  strip_data_uri "iVBORw0KGgo=" = Ok "iVBORw0KGgo=".
Proof.
  split.
  - by apply (proj1 strip_data_uri_cuts_header).
  - apply (proj1 (proj2 strip_data_uri_cuts_header)). by right.
Defined.
